(** * The animated fishing-net background ([background.js])

    A shallow embedding of the script and the properties of its lattice,
    its line meshes, its animation tick and its resize handler.

    Numbers.  A JavaScript number is modelled as a real number: [+], [-],
    [*] and [/] are the field operations of [R], [Math.sin], [Math.cos] and
    [Math.PI] are [sin], [cos] and [PI], and [Math.floor] is the integer
    part.  Rounding to binary64, and the narrower element type of a vertex
    buffer, are outside the model; the last section evaluates, in binary64,
    the two places where rounding shows.  A loop counter is a [nat], injected
    with [INR] where the script uses it in arithmetic.

    Failure.  Indexing an ordinary array out of range gives [undefined], and
    reading a property of [undefined] throws: this is [None] here, and the
    theorems show that it does not happen.  Reading a vertex buffer out of
    range gives [undefined], which arithmetic turns into NaN; in the loop of
    [animate] this can only happen to the y of a last, incomplete point,
    whose z lies beyond the end of the buffer too, so that the write of the
    NaN is dropped and the loop completes. *)

From Corelib Require Import PrimFloat.
From Corelib Require SpecFloat FloatOps FloatAxioms.
From Stdlib Require Import Reals Lra Lia ZArith.
From stdpp Require Import base option list.
From Equations Require Import Equations.

#[local] Open Scope R_scope.

(** ** The parts of three.js the script drives *)

Module Vector3.
Record t : Type := mk { x : R; y : R; z : R }.
End Vector3.

Module Material.
(** [new THREE.LineBasicMaterial({ color, opacity, transparent })] *)
Record t : Type := mk { color : Z; opacity : R; transparent : bool }.
End Material.

Module Line.
(** A [THREE.Line]: [positions] is [geometry.attributes.position.array],
    three consecutive entries per point, and [needsUpdate] the flag of the
    same attribute. *)
Record t : Type := mk {
  positions : list R;
  needsUpdate : bool;
  material : Material.t
}.
End Line.

Module Group.
(** A [THREE.Group] with the two Euler angles the script assigns. *)
Record t : Type := mk {
  children : list Line.t;
  rotation_x : R;
  rotation_y : R
}.
End Group.

(** [new THREE.BufferGeometry().setFromPoints(points)]: the position buffer
    holds x, y, z of every point in order. *)
Definition setFromPoints (points : list Vector3.t) : list R :=
  points ≫= (λ p, [Vector3.x p; Vector3.y p; Vector3.z p]).

(** [new THREE.Line(lineGeometry, linesMaterial)] *)
Definition newLine (lineGeometry : list R) (linesMaterial : Material.t) : Line.t :=
  Line.mk lineGeometry false linesMaterial.

(** [new THREE.Group()] and [netGroup.add(line)] *)
Definition newGroup : Group.t := Group.mk [] 0 0.

Definition add (netGroup : Group.t) (line : Line.t) : Group.t :=
  Group.mk (Group.children netGroup ++ [line])
           (Group.rotation_x netGroup) (Group.rotation_y netGroup).

(** The accessors of a position attribute, [getX(p)], [getY(p)], [getZ(p)]:
    entries [3p], [3p+1] and [3p+2] of the buffer. *)
Definition getX (line : Line.t) (p : nat) : option R :=
  Line.positions line !! (3 * p)%nat.
Definition getY (line : Line.t) (p : nat) : option R :=
  Line.positions line !! (3 * p + 1)%nat.
Definition getZ (line : Line.t) (p : nat) : option R :=
  Line.positions line !! (3 * p + 2)%nat.

(** ** Loops *)

(** [for (let k = start; k < start + count; k++) body], threading the
    variables the body assigns through [s]; a throwing body ends the loop. *)
Fixpoint for_range {St : Type} (start count : nat)
    (body : nat → St → option St) (s : St) : option St :=
  match count with
  | O => Some s
  | S count' => s' ← body start s; for_range (S start) count' body s'
  end.

(** [array.push(v)] *)
Definition push {A : Type} (array : list A) (v : A) : list A := array ++ [v].

(** ** [createFishingNet] *)

Module Cell.
(** An entry [{ x, y, baseZ }] of [netGeometry]. *)
Record t : Type := mk { x : R; y : R; baseZ : R }.
End Cell.

Definition linesMaterial : Material.t := Material.mk 0xffffff 0.4 true.

(** The body of [createFishingNet], with its two configuration constants
    [gridSize] and [spacing] as arguments. *)
Definition createFishingNetWith (gridSize : nat) (spacing : R)
    : option (Group.t * list (list Cell.t)) :=
  let netGroup := newGroup in
  (* GENERATE BASE COORDINATES *)
  netGeometry ← for_range 0 gridSize (λ i netGeometry,
    rowCoords ← for_range 0 gridSize (λ j rowCoords,
      let x := (INR j - INR gridSize / 2) * spacing in
      let y := (INR i - INR gridSize / 2) * spacing in
      Some (push rowCoords (Cell.mk x y 0))) [];
    Some (push netGeometry rowCoords)) [];
  (* CREATE HORIZONTAL LINES *)
  netGroup ← for_range 0 gridSize (λ i netGroup,
    points ← for_range 0 gridSize (λ j points,
      coord ← netGeometry !! i ≫= (.!! j);
      let z := sin (INR j * 0.3 + INR i * 0.3) * 1 +
               cos ((Cell.x coord + Cell.y coord) * 0.2) * 0.5 in
      Some (push points (Vector3.mk (Cell.x coord) (Cell.y coord) z))) [];
    let lineGeometry := setFromPoints points in
    let line := newLine lineGeometry linesMaterial in
    Some (add netGroup line)) netGroup;
  (* CREATE VERTICAL LINES *)
  netGroup ← for_range 0 gridSize (λ j netGroup,
    points ← for_range 0 gridSize (λ i points,
      coord ← netGeometry !! i ≫= (.!! j);
      let z := cos (INR j * 0.3 + INR i * 0.3) * 1 +
               sin ((Cell.x coord + Cell.y coord) * 0.2) * 0.5 in
      Some (push points (Vector3.mk (Cell.x coord) (Cell.y coord) z))) [];
    let lineGeometry := setFromPoints points in
    let line := newLine lineGeometry linesMaterial in
    Some (add netGroup line)) netGroup;
  Some (netGroup, netGeometry).

(** Net configuration *)
Definition gridSize : nat := 25.
Definition spacing : R := 1.0.

Definition createFishingNet : option (Group.t * list (list Cell.t)) :=
  createFishingNetWith gridSize spacing.

(** ** Camera, renderer and the script's global state *)

Module Projection.
(** The camera's projection matrix.  three.js computes it from the camera's
    field of view, aspect ratio and clipping planes; the model keeps the
    values of these four parameters that the matrix was last computed from. *)
Record t : Type := mk { fov : R; aspect : R; near : R; far : R }.
End Projection.

Module Camera.
Record t : Type := mk {
  fov : R;
  aspect : R;
  near : R;
  far : R;
  position : Vector3.t;
  target : Vector3.t;
  projectionMatrix : Projection.t
}.
End Camera.

(** [camera.updateProjectionMatrix()] *)
Definition updateProjectionMatrix (camera : Camera.t) : Camera.t :=
  Camera.mk (Camera.fov camera) (Camera.aspect camera)
            (Camera.near camera) (Camera.far camera)
            (Camera.position camera) (Camera.target camera)
            (Projection.mk (Camera.fov camera) (Camera.aspect camera)
                           (Camera.near camera) (Camera.far camera)).

(** [new THREE.PerspectiveCamera(fov, aspect, near, far)]: at the origin,
    with its projection computed. *)
Definition PerspectiveCamera (fov aspect near far : R) : Camera.t :=
  updateProjectionMatrix
    (Camera.mk fov aspect near far (Vector3.mk 0 0 0) (Vector3.mk 0 0 0)
               (Projection.mk fov aspect near far)).

(** [camera.aspect = a], [camera.position.set(x, y, z)] and
    [camera.lookAt(x, y, z)] *)
Definition set_aspect (camera : Camera.t) (a : R) : Camera.t :=
  Camera.mk (Camera.fov camera) a (Camera.near camera) (Camera.far camera)
            (Camera.position camera) (Camera.target camera)
            (Camera.projectionMatrix camera).

Definition position_set (camera : Camera.t) (x y z : R) : Camera.t :=
  Camera.mk (Camera.fov camera) (Camera.aspect camera)
            (Camera.near camera) (Camera.far camera)
            (Vector3.mk x y z) (Camera.target camera)
            (Camera.projectionMatrix camera).

Definition lookAt (camera : Camera.t) (x y z : R) : Camera.t :=
  Camera.mk (Camera.fov camera) (Camera.aspect camera)
            (Camera.near camera) (Camera.far camera)
            (Camera.position camera) (Vector3.mk x y z)
            (Camera.projectionMatrix camera).

Module Renderer.
(** A [THREE.WebGLRenderer] with the size of its output surface. *)
Record t : Type := mk { antialias : bool; width : R; height : R }.
End Renderer.

(** [renderer.setSize(width, height)] *)
Definition setSize (renderer : Renderer.t) (width height : R) : Renderer.t :=
  Renderer.mk (Renderer.antialias renderer) width height.

(** The globals of the script and the part of the host it touches:
    [innerWidth] and [innerHeight] are the window's, [requested] counts the
    calls of [requestAnimationFrame] and [rendered] those of
    [renderer.render].  What a call of [renderer.render] draws, from the
    scene, the camera and the renderer as they are at that moment, is not
    part of the model. *)
Record World : Type := mkWorld {
  innerWidth : R;
  innerHeight : R;
  background : Z;
  camera : Camera.t;
  renderer : Renderer.t;
  fishingNet : Group.t;
  netGeometry : list (list Cell.t);
  time : R;
  requested : nat;
  rendered : nat
}.

(** The script from its first line to [let time = 0], in a window of the
    given size. *)
Definition boot (innerWidth innerHeight : R) : option World :=
  let background := 0x55CEFF%Z in
  let camera := PerspectiveCamera 75 (innerWidth / innerHeight) 0.1 1000 in
  let renderer := Renderer.mk true 0 0 in
  let renderer := setSize renderer innerWidth innerHeight in
  '(fishingNet, netGeometry) ← createFishingNet;
  let camera := position_set camera 0 12 5 in
  let camera := lookAt camera 0 0 0 in
  let time := 0 in
  Some (mkWorld innerWidth innerHeight background camera renderer
                fishingNet netGeometry time 0 0).

(** ** [animate] *)

(** [Math.floor] *)
Definition Math_floor (v : R) : R := IZR (Int_part v).

(** The wave of the animation: the value [animate] computes for [z]. *)
Definition depth (x y time : R) : R :=
  sin (x * 0.3 + y * 0.3 + time) * 1 +
  cos ((x + y) * 0.2) * 0.5.

(** [for (let i = ...; i < positions.length; i += 3)] of [animate].  A write
    beyond the end of the buffer is ignored, as stdpp's insert does.  When
    [positions[i + 1]] is beyond the end, [z] is NaN and [positions[i + 2]]
    is beyond the end as well: nothing is written and the loop goes on. *)
Equations? forPositions (time : R) (i : nat) (positions : list R)
    : option (list R) by wf (length positions - i)%nat lt :=
  forPositions time i positions with decide (i < length positions)%nat := {
    | left _ with positions !! i, positions !! (i + 1)%nat := {
      | Some x, Some y =>
          let z := depth x y time in
          forPositions time (i + 3) (<[ (i + 2)%nat := z ]> positions)
      | _, _ => forPositions time (i + 3) positions }
    | right _ => Some positions }.
Proof. all: rewrite ?length_insert; lia. Qed.

(** The callback of [fishingNet.children.forEach]. *)
Definition updateLine (time : R) (line : Line.t) : option Line.t :=
  positions ← forPositions time 0 (Line.positions line);
  Some (Line.mk positions true (Line.material line)).

(** One call of [animate]; [random] is the value [Math.random()] returns. *)
Definition animate (random : R) (w : World) : option World :=
  let requested := S (requested w) in
  let time := time w + Math_floor (random * 20) * 0.001 in
  let rotation_x := PI / 4 + sin time * 0.1 in
  let rotation_y := cos time * 0.2 in
  children ← mapM (updateLine time) (Group.children (fishingNet w));
  let fishingNet := Group.mk children rotation_x rotation_y in
  Some (mkWorld (innerWidth w) (innerHeight w) (background w) (camera w)
                (renderer w) fishingNet (netGeometry w) time requested
                (S (rendered w))).

(** ** The resize listener *)

Definition onResize (w : World) : World :=
  let newWidth := innerWidth w in
  let newHeight := innerHeight w in
  let camera := set_aspect (camera w) (newWidth / newHeight) in
  let camera := updateProjectionMatrix camera in
  let renderer := setSize (renderer w) newWidth newHeight in
  mkWorld (innerWidth w) (innerHeight w) (background w) camera renderer
          (fishingNet w) (netGeometry w) (time w) (requested w) (rendered w).

(** ** Runs of the page *)

(** What the host does to the page: it runs [animate] (the call that ends
    the script, or a requested animation frame), [random] being the value
    this call draws, or it resizes the window and notifies the listener. *)
Inductive event : Type :=
  | Frame (random : R)
  | Resize (newWidth newHeight : R).

Definition resizeWindow (newWidth newHeight : R) (w : World) : World :=
  mkWorld newWidth newHeight (background w) (camera w) (renderer w)
          (fishingNet w) (netGeometry w) (time w) (requested w) (rendered w).

Definition handle (e : event) (w : World) : option World :=
  match e with
  | Frame random => animate random w
  | Resize newWidth newHeight => Some (onResize (resizeWindow newWidth newHeight w))
  end.

Fixpoint run (es : list event) (w : World) : option World :=
  match es with
  | [] => Some w
  | e :: es' => w' ← handle e w; run es' w'
  end.

(** The whole script: [boot], then the call [animate()] of its last line. *)
Definition script (innerWidth innerHeight random : R) : option World :=
  w ← boot innerWidth innerHeight; animate random w.

(** [Math.random()] returns a number in [[0, 1)]. *)
Definition unit_draw (e : event) : Prop :=
  match e with
  | Frame random => 0 <= random < 1
  | Resize _ _ => True
  end.

(** ** What the loops compute, in closed form *)

(** The cell the first pair of loops stores at [netGeometry[i][j]]. *)
Definition cellAt (gridSize : nat) (spacing : R) (i j : nat) : Cell.t :=
  Cell.mk ((INR j - INR gridSize / 2) * spacing)
          ((INR i - INR gridSize / 2) * spacing) 0.

Definition lattice (gridSize : nat) (spacing : R) : list (list Cell.t) :=
  (λ i, cellAt gridSize spacing i <$> seq 0 gridSize) <$> seq 0 gridSize.

(** Point [j] of horizontal line [i], and point [i] of vertical line [j]. *)
Definition hpoint (gridSize : nat) (spacing : R) (i j : nat) : Vector3.t :=
  let coord := cellAt gridSize spacing i j in
  Vector3.mk (Cell.x coord) (Cell.y coord)
    (sin (INR j * 0.3 + INR i * 0.3) * 1 +
     cos ((Cell.x coord + Cell.y coord) * 0.2) * 0.5).

Definition vpoint (gridSize : nat) (spacing : R) (j i : nat) : Vector3.t :=
  let coord := cellAt gridSize spacing i j in
  Vector3.mk (Cell.x coord) (Cell.y coord)
    (cos (INR j * 0.3 + INR i * 0.3) * 1 +
     sin ((Cell.x coord + Cell.y coord) * 0.2) * 0.5).

(** The points of all lines, in the order of [netGroup.children]. *)
Definition netPoints (gridSize : nat) (spacing : R) : list (list Vector3.t) :=
  ((λ i, hpoint gridSize spacing i <$> seq 0 gridSize) <$> seq 0 gridSize) ++
  ((λ j, vpoint gridSize spacing j <$> seq 0 gridSize) <$> seq 0 gridSize).

Definition lineOf (points : list Vector3.t) : Line.t :=
  newLine (setFromPoints points) linesMaterial.

(** A point after a tick at [time]: x and y kept, z on the wave. *)
Definition wave (time : R) (p : Vector3.t) : Vector3.t :=
  Vector3.mk (Vector3.x p) (Vector3.y p)
             (depth (Vector3.x p) (Vector3.y p) time).

Definition wavedLine (time : R) (points : list Vector3.t) : Line.t :=
  Line.mk (setFromPoints (wave time <$> points)) true linesMaterial.

(** The lines of the net in a world: as built, while no tick has run, and on
    the wave of the current time from the first tick on. *)
Definition net_shape (w : World) : Prop :=
  Group.children (fishingNet w) = lineOf <$> netPoints gridSize spacing ∨
  Group.children (fishingNet w) = wavedLine (time w) <$> netPoints gridSize spacing.

(** The second case alone: the net once a tick has run. *)
Definition waved (w : World) : Prop :=
  Group.children (fishingNet w) = wavedLine (time w) <$> netPoints gridSize spacing.

(** The x and the y coordinates that occur in a lattice, and what it means
    for such a collection to be symmetric about 0. *)
Definition xCoordinates (netGeometry : list (list Cell.t)) : list R :=
  Cell.x <$> mjoin netGeometry.

Definition yCoordinates (netGeometry : list (list Cell.t)) : list R :=
  Cell.y <$> mjoin netGeometry.

Definition symmetric_about_0 (coordinates : list R) : Prop :=
  ∀ v, v ∈ coordinates → - v ∈ coordinates.

(** ** Measures and invariants of a run *)

(** The number of ticks in a run. *)
Fixpoint frames (es : list event) : nat :=
  match es with
  | [] => 0
  | Frame _ :: es' => S (frames es')
  | Resize _ _ :: es' => frames es'
  end.

(** The size of the window after a run that started with the given size. *)
Fixpoint windowSize (size : R * R) (es : list event) : R * R :=
  match es with
  | [] => size
  | Frame _ :: es' => windowSize size es'
  | Resize newWidth newHeight :: es' => windowSize (newWidth, newHeight) es'
  end.

(** The rotation of the net is the one [animate] assigns at the current
    time. *)
Definition rotating (w : World) : Prop :=
  Group.rotation_x (fishingNet w) = PI / 4 + sin (time w) * 0.1 ∧
  Group.rotation_y (fishingNet w) = cos (time w) * 0.2.

(** Camera and renderer fit the window: the renderer has its size, the
    camera its aspect ratio, and the projection is the one of the camera's
    current parameters. *)
Definition fitted (w : World) : Prop :=
  Renderer.width (renderer w) = innerWidth w ∧
  Renderer.height (renderer w) = innerHeight w ∧
  Camera.aspect (camera w) = innerWidth w / innerHeight w ∧
  Camera.projectionMatrix (camera w) =
    Projection.mk (Camera.fov (camera w)) (Camera.aspect (camera w))
                  (Camera.near (camera w)) (Camera.far (camera w)).

(** A buffer of whole points: three numbers for each. *)
Definition wholePoints (line : Line.t) : Prop :=
  (length (Line.positions line) mod 3 = 0)%nat.

(** The parts of a world that no handler assigns. *)
Definition fixedParts (w : World)
    : Z * (R * R * R) * (Vector3.t * Vector3.t) * bool * list (list Cell.t) :=
  (background w,
   (Camera.fov (camera w), Camera.near (camera w), Camera.far (camera w)),
   (Camera.position (camera w), Camera.target (camera w)),
   Renderer.antialias (renderer w), netGeometry w).

(** ** Binary64

    The script runs on binary64 numbers.  The arguments that [animate] passes
    to [Math.sin] and to [Math.cos], and the expression it computes for a
    depth, with the operations of binary64. *)

Set Warnings "-inexact-float".

Definition sineArgument64 (x y time : PrimFloat.float) : PrimFloat.float :=
  (x * 0.3 + y * 0.3 + time)%float.

Definition cosineArgument64 (x y : PrimFloat.float) : PrimFloat.float :=
  ((x + y) * 0.2)%float.

(** The expression [animate] computes for [z] (lines 157 to 160), in
    binary64.  ECMAScript leaves [Math.sin] and [Math.cos] to the host:
    they are the parameters [sin64] and [cos64]. *)
Definition depth64 (sin64 cos64 : float → float) (x y time : float) : float :=
  (sin64 (x * 0.3 + y * 0.3 + time) * 1 +
   cos64 ((x + y) * 0.2) * 0.5)%float.

(** A sine and a cosine for the counterexamples: at the arguments that occur
    there, the binary64 number nearest to the exact sine or cosine; elsewhere
    NaN, which no counterexample reads. *)
Definition nearestSin (v : float) : float :=
  (if v =? 2.0999999999999996 then 0.86320936664887393
   else if v =? 2.1 then 0.86320936664887371
   else if v =? -6.9000000000000004 then -0.57843976438820011
   else if v =? -6.8999999999999995 then -0.57843976438819944
   else nan)%float.

Definition nearestCos (v : float) : float :=
  (if v =? 1.4000000000000001 then 0.16996714290024081
   else if v =? 1.4 then 0.16996714290024104
   else if v =? -4.6000000000000005 then -0.11215252693505398
   else nan)%float.

(** * Properties *)

(** ** Loops *)

Lemma for_range_fold {St : Type} (g : nat → St → St) body start count (s : St) :
  (∀ k s', (start ≤ k < start + count)%nat → body k s' = Some (g k s')) →
  for_range start count body s = Some (foldl (λ s' k, g k s') s (seq start count)).
Proof.
  revert start s. induction count as [|count IH]; intros start s Hbody; [done|].
  cbn [for_range seq foldl]. rewrite Hbody by lia. cbn.
  apply IH. intros k s' Hk. apply Hbody. lia.
Qed.

Lemma foldl_push {A B : Type} (f : B → A) (l : list B) (acc : list A) :
  foldl (λ acc' k, push acc' (f k)) acc l = acc ++ (f <$> l).
Proof.
  revert acc. induction l as [|b l IH]; intros acc; cbn.
  - by rewrite app_nil_r.
  - rewrite IH. unfold push. by rewrite <- app_assoc.
Qed.

Lemma for_range_push {A : Type} (f : nat → A) body start count (acc : list A) :
  (∀ k acc', (start ≤ k < start + count)%nat → body k acc' = Some (push acc' (f k))) →
  for_range start count body acc = Some (acc ++ (f <$> seq start count)).
Proof.
  intros Hbody. rewrite (for_range_fold (λ k acc', push acc' (f k))) by done.
  by rewrite foldl_push.
Qed.

Lemma foldl_add (f : nat → Line.t) (l : list nat) (g : Group.t) :
  foldl (λ g' k, add g' (f k)) g l =
  Group.mk (Group.children g ++ (f <$> l)) (Group.rotation_x g) (Group.rotation_y g).
Proof.
  revert g. induction l as [|k l IH]; intros g; cbn.
  - rewrite app_nil_r. by destruct g.
  - rewrite IH. cbn. by rewrite <- app_assoc.
Qed.

(** ** The lattice and the lines [createFishingNet] builds *)

Lemma lattice_lookup gridSize spacing i j :
  (i < gridSize)%nat → (j < gridSize)%nat →
  lattice gridSize spacing !! i ≫= (.!! j) = Some (cellAt gridSize spacing i j).
Proof.
  intros Hi Hj. unfold lattice.
  rewrite list_lookup_fmap, lookup_seq_lt by done. cbn.
  by rewrite list_lookup_fmap, lookup_seq_lt.
Qed.

Lemma createFishingNetWith_eq gridSize spacing :
  createFishingNetWith gridSize spacing =
  Some (Group.mk (lineOf <$> netPoints gridSize spacing) 0 0,
        lattice gridSize spacing).
Proof.
  unfold createFishingNetWith.
  rewrite (for_range_push (λ i, cellAt gridSize spacing i <$> seq 0 gridSize)).
  2:{ intros i acc _.
      by rewrite (for_range_push (cellAt gridSize spacing i)). }
  cbn [mbind option_bind app]. fold (lattice gridSize spacing).
  rewrite (for_range_fold
    (λ i g, add g (lineOf (hpoint gridSize spacing i <$> seq 0 gridSize)))).
  2:{ intros i g Hi.
      rewrite (for_range_push (hpoint gridSize spacing i)); [done|].
      intros j acc Hj. by rewrite lattice_lookup by lia. }
  cbn [mbind option_bind].
  rewrite (for_range_fold
    (λ j g, add g (lineOf (vpoint gridSize spacing j <$> seq 0 gridSize)))).
  2:{ intros j g Hj.
      rewrite (for_range_push (vpoint gridSize spacing j)); [done|].
      intros i acc Hi. by rewrite lattice_lookup by lia. }
  cbn [mbind option_bind]. rewrite !foldl_add. cbn.
  unfold netPoints. by rewrite fmap_app, <- !list_fmap_compose.
Qed.

(** ** Position buffers *)

Lemma setFromPoints_cons p points :
  setFromPoints (p :: points) =
  Vector3.x p :: Vector3.y p :: Vector3.z p :: setFromPoints points.
Proof. done. Qed.

Lemma setFromPoints_app points1 points2 :
  setFromPoints (points1 ++ points2) = setFromPoints points1 ++ setFromPoints points2.
Proof. apply bind_app. Qed.

Lemma setFromPoints_length points :
  length (setFromPoints points) = (3 * length points)%nat.
Proof.
  induction points as [|p points IH]; [done|].
  rewrite setFromPoints_cons. cbn [length]. lia.
Qed.

Lemma setFromPoints_lookup points p :
  setFromPoints points !! (3 * p)%nat = Vector3.x <$> points !! p ∧
  setFromPoints points !! (3 * p + 1)%nat = Vector3.y <$> points !! p ∧
  setFromPoints points !! (3 * p + 2)%nat = Vector3.z <$> points !! p.
Proof.
  revert p. induction points as [|q points IH]; intros p; [done|].
  rewrite setFromPoints_cons. destruct p as [|p]; [done|].
  replace (3 * S p)%nat with (S (S (S (3 * p)))) by lia.
  cbn [lookup list_lookup Nat.add]. apply IH.
Qed.

Lemma forPositions_step time i positions :
  forPositions time i positions =
  if decide (i < length positions)%nat then
    match positions !! i, positions !! (i + 1)%nat with
    | Some x, Some y =>
        forPositions time (i + 3) (<[ (i + 2)%nat := depth x y time ]> positions)
    | _, _ => forPositions time (i + 3) positions
    end
  else Some positions.
Proof.
  simp forPositions.
  destruct (decide (i < length positions)%nat); simp forPositions; [|done].
  destruct (positions !! i), (positions !! (i + 1)%nat);
    by simp forPositions.
Qed.

(** On the buffer of a line the loop visits the points one by one: with the
    points of [done] behind it and those of [points] ahead, it ends with
    [points] moved onto the wave and [done] as it was. *)
Lemma forPositions_points time done points :
  forPositions time (3 * length done)
    (setFromPoints done ++ setFromPoints points) =
  Some (setFromPoints done ++ setFromPoints (wave time <$> points)).
Proof.
  revert done. induction points as [|p points IH]; intros done.
  - rewrite forPositions_step, decide_False; [done|].
    rewrite length_app, setFromPoints_length. cbn. lia.
  - rewrite forPositions_step, decide_True.
    2:{ rewrite length_app, !setFromPoints_length. cbn. lia. }
    pose proof (setFromPoints_length done) as Hlen.
    rewrite setFromPoints_cons.
    rewrite !lookup_app_r by lia.
    replace (3 * length done - length (setFromPoints done))%nat with 0%nat by lia.
    replace (3 * length done + 1 - length (setFromPoints done))%nat with 1%nat by lia.
    cbn [lookup list_lookup].
    rewrite insert_app_r_alt by lia.
    replace (3 * length done + 2 - length (setFromPoints done))%nat with 2%nat by lia.
    cbn [insert list_insert].
    specialize (IH (done ++ [wave time p])).
    rewrite length_app, setFromPoints_app in IH. cbn [length] in IH.
    replace (3 * (length done + 1))%nat with (3 * length done + 3)%nat in IH by lia.
    rewrite <- app_assoc in IH.
    change (setFromPoints [wave time p] ++ setFromPoints points)
      with (Vector3.x p :: Vector3.y p ::
            depth (Vector3.x p) (Vector3.y p) time :: setFromPoints points) in IH.
    rewrite IH, fmap_cons, setFromPoints_cons, <- app_assoc. done.
Qed.

Lemma updateLine_lineOf time points :
  updateLine time (lineOf points) = Some (wavedLine time points).
Proof.
  unfold updateLine, lineOf, newLine. cbn [Line.positions Line.material].
  pose proof (forPositions_points time [] points) as H. cbn in H.
  by rewrite H.
Qed.

Lemma wave_wave time time' p : wave time (wave time' p) = wave time p.
Proof. done. Qed.

Lemma updateLine_wavedLine time time' points :
  updateLine time (wavedLine time' points) = Some (wavedLine time points).
Proof.
  unfold updateLine, wavedLine. cbn [Line.positions Line.material].
  pose proof (forPositions_points time [] (wave time' <$> points)) as H.
  cbn in H. rewrite H. cbn. rewrite <- list_fmap_compose. done.
Qed.

(** ** Worlds of a run *)

Lemma mapM_fmap_total {A B C : Type} (f : B → option C) (g : A → B) (h : A → C)
    (l : list A) :
  (∀ a, f (g a) = Some (h a)) → mapM f (g <$> l) = Some (h <$> l).
Proof.
  intros Hf. apply mapM_Some_2. induction l as [|a l IH]; constructor; auto.
Qed.

Lemma boot_eq innerWidth innerHeight :
  boot innerWidth innerHeight =
  Some (mkWorld innerWidth innerHeight 0x55CEFF
          (lookAt (position_set
             (PerspectiveCamera 75 (innerWidth / innerHeight) 0.1 1000) 0 12 5) 0 0 0)
          (Renderer.mk true innerWidth innerHeight)
          (Group.mk (lineOf <$> netPoints gridSize spacing) 0 0)
          (lattice gridSize spacing) 0 0 0).
Proof.
  unfold boot, createFishingNet. by rewrite createFishingNetWith_eq.
Qed.

Lemma boot_children innerWidth innerHeight w0 :
  boot innerWidth innerHeight = Some w0 →
  Group.children (fishingNet w0) = lineOf <$> netPoints gridSize spacing.
Proof.
  rewrite boot_eq. intros Hboot. injection Hboot as Hboot.
  rewrite <- Hboot. reflexivity.
Qed.

Lemma boot_shape innerWidth innerHeight :
  ∃ w0, boot innerWidth innerHeight = Some w0 ∧ net_shape w0 ∧ time w0 = 0.
Proof. eexists. split; [apply boot_eq|]. split; [by left|done]. Qed.

Lemma animate_shape random w :
  net_shape w →
  ∃ w', animate random w = Some w' ∧ waved w' ∧
        time w' = time w + Math_floor (random * 20) * 0.001.
Proof.
  intros Hw. unfold animate.
  set (t := time w + Math_floor (random * 20) * 0.001).
  assert (mapM (updateLine t) (Group.children (fishingNet w)) =
          Some (wavedLine t <$> netPoints gridSize spacing)) as ->.
  { destruct Hw as [-> | ->].
    - apply mapM_fmap_total, updateLine_lineOf.
    - apply mapM_fmap_total, updateLine_wavedLine. }
  eexists. split; [done|]. by split.
Qed.

Lemma waved_shape w : waved w → net_shape w.
Proof. by right. Qed.

Lemma handle_shape e w :
  net_shape w →
  ∃ w', handle e w = Some w' ∧ net_shape w' ∧ (waved w → waved w').
Proof.
  intros Hw. destruct e as [random | newWidth newHeight].
  - destruct (animate_shape random w Hw) as (w' & Hw' & Hwaved & _).
    exists w'. split; [done|]. split; [by right|done].
  - eexists. split; [done|]. split; [exact Hw|]. by intros.
Qed.

Lemma run_app es1 es2 w : run (es1 ++ es2) w = run es1 w ≫= run es2.
Proof.
  revert w. induction es1 as [|e es1 IH]; intros w; [done|].
  cbn. destruct (handle e w) as [w'|]; [apply IH|done].
Qed.

Lemma run_shape es w :
  net_shape w →
  ∃ w', run es w = Some w' ∧ net_shape w' ∧ (waved w → waved w').
Proof.
  revert w. induction es as [|e es IH]; intros w Hw.
  - exists w. by split.
  - destruct (handle_shape e w Hw) as (w1 & Hw1 & Hs1 & Hwv1).
    destruct (IH w1 Hs1) as (w' & Hw' & Hs' & Hwv').
    exists w'. cbn. rewrite Hw1. cbn. split; [done|]. split; [done|]. auto.
Qed.

(** The script is [boot] followed by a first tick. *)
Lemma script_run innerWidth innerHeight random :
  script innerWidth innerHeight random =
  boot innerWidth innerHeight ≫= run [Frame random].
Proof.
  unfold script. destruct (boot innerWidth innerHeight) as [w|]; [|reflexivity].
  cbn [mbind option_bind run handle].
  destruct (animate random w); reflexivity.
Qed.

(** The worlds a run from [boot] goes through when it has a tick in it. *)
Lemma run_frame innerWidth innerHeight es1 random es2 :
  ∃ w0 w1 w2 w3,
    boot innerWidth innerHeight = Some w0 ∧ time w0 = 0 ∧ net_shape w0 ∧
    run es1 w0 = Some w1 ∧ net_shape w1 ∧
    animate random w1 = Some w2 ∧ waved w2 ∧
    time w2 = time w1 + Math_floor (random * 20) * 0.001 ∧
    run es2 w2 = Some w3 ∧ waved w3 ∧
    run (es1 ++ Frame random :: es2) w0 = Some w3.
Proof.
  destruct (boot_shape innerWidth innerHeight) as (w0 & Hboot & Hs0 & Ht0).
  destruct (run_shape es1 w0 Hs0) as (w1 & Hrun1 & Hs1 & _).
  destruct (animate_shape random w1 Hs1) as (w2 & Hanim & Hwv2 & Ht2).
  destruct (run_shape es2 w2 (waved_shape _ Hwv2)) as (w3 & Hrun2 & _ & Hwv3).
  exists w0, w1, w2, w3.
  do 9 (split; [first [assumption | exact (Hwv3 Hwv2)]|]).
  split; [exact (Hwv3 Hwv2)|].
  rewrite run_app, Hrun1. cbn [mbind option_bind run handle].
  rewrite Hanim. exact Hrun2.
Qed.

(** ** Reading the lines of the net *)

Lemma netPoints_length gridSize spacing :
  length (netPoints gridSize spacing) = (2 * gridSize)%nat.
Proof.
  unfold netPoints. rewrite length_app, !length_fmap, !length_seq. lia.
Qed.

Lemma netPoints_hline gridSize spacing i :
  (i < gridSize)%nat →
  netPoints gridSize spacing !! i = Some (hpoint gridSize spacing i <$> seq 0 gridSize).
Proof.
  intros Hi. unfold netPoints.
  rewrite lookup_app_l by (by rewrite length_fmap, length_seq).
  by rewrite list_lookup_fmap, lookup_seq_lt.
Qed.

Lemma netPoints_vline gridSize spacing j :
  (j < gridSize)%nat →
  netPoints gridSize spacing !! (gridSize + j)%nat =
  Some (vpoint gridSize spacing j <$> seq 0 gridSize).
Proof.
  intros Hj. unfold netPoints.
  rewrite lookup_app_r by (rewrite length_fmap, length_seq; lia).
  rewrite length_fmap, length_seq.
  replace (gridSize + j - gridSize)%nat with j by lia.
  by rewrite list_lookup_fmap, lookup_seq_lt.
Qed.

Lemma netPoints_points gridSize spacing points :
  points ∈ netPoints gridSize spacing → length points = gridSize.
Proof.
  unfold netPoints. rewrite elem_of_app, !list_elem_of_fmap.
  intros [(i & -> & _) | (j & -> & _)]; by rewrite length_fmap, length_seq.
Qed.

Lemma lineOf_get points p :
  getX (lineOf points) p = Vector3.x <$> points !! p ∧
  getY (lineOf points) p = Vector3.y <$> points !! p ∧
  getZ (lineOf points) p = Vector3.z <$> points !! p.
Proof. apply setFromPoints_lookup. Qed.

Lemma wavedLine_get time points p :
  getX (wavedLine time points) p = Vector3.x <$> points !! p ∧
  getY (wavedLine time points) p = Vector3.y <$> points !! p ∧
  getZ (wavedLine time points) p =
    (λ q, depth (Vector3.x q) (Vector3.y q) time) <$> points !! p.
Proof.
  unfold getX, getY, getZ, wavedLine. cbn [Line.positions].
  destruct (setFromPoints_lookup (wave time <$> points) p) as (-> & -> & ->).
  rewrite list_lookup_fmap. by destruct (points !! p).
Qed.

(** A line of the net has the x and y of the points it was built from. *)
Lemma net_shape_line w k line :
  net_shape w → Group.children (fishingNet w) !! k = Some line →
  ∃ points,
    netPoints gridSize spacing !! k = Some points ∧
    length (Line.positions line) = (3 * length points)%nat ∧
    ∀ p, getX line p = Vector3.x <$> points !! p ∧
         getY line p = Vector3.y <$> points !! p.
Proof.
  intros [Hw | Hw] Hline; rewrite Hw, list_lookup_fmap in Hline;
    destruct (netPoints gridSize spacing !! k) as [points|]; try done;
    injection Hline as <-; exists points; (split; [done|]); split.
  - apply setFromPoints_length.
  - intros p. destruct (lineOf_get points p) as (-> & -> & _). done.
  - cbn. by rewrite setFromPoints_length, length_fmap.
  - intros p. destruct (wavedLine_get (time w) points p) as (-> & -> & _). done.
Qed.

Lemma waved_line w k line :
  waved w → Group.children (fishingNet w) !! k = Some line →
  ∃ points,
    netPoints gridSize spacing !! k = Some points ∧
    line = wavedLine (time w) points.
Proof.
  intros Hw Hline. rewrite Hw, list_lookup_fmap in Hline.
  destruct (netPoints gridSize spacing !! k) as [points|]; [|done].
  injection Hline as <-. by exists points.
Qed.

Lemma waved_children w k points :
  waved w → netPoints gridSize spacing !! k = Some points →
  Group.children (fishingNet w) !! k = Some (wavedLine (time w) points).
Proof. intros Hw Hk. by rewrite Hw, list_lookup_fmap, Hk. Qed.

(** Once a tick has run, every point lies on the wave of the current time. *)
Lemma waved_depth w k line p x y :
  waved w → Group.children (fishingNet w) !! k = Some line →
  getX line p = Some x → getY line p = Some y →
  getZ line p = Some (depth x y (time w)).
Proof.
  intros Hw Hline Hx Hy.
  destruct (waved_line w k line Hw Hline) as (points & _ & ->).
  destruct (wavedLine_get (time w) points p) as (Hgx & Hgy & ->).
  rewrite Hgx in Hx. rewrite Hgy in Hy.
  destruct (points !! p) as [q|]; [|done].
  injection Hx as <-. injection Hy as <-. done.
Qed.

(** ** The lattice *)

(** C4: for all [i], [j] below [gridSize], [createFishingNet] returns, and the
    cell it stored at [netGeometry[i][j]] has
    [x = (j - gridSize/2) * spacing] and [y = (i - gridSize/2) * spacing];
    this holds for every grid size and spacing, the script's 25 and 1.0
    among them. *)
Theorem lattice_coordinates (gridSize : nat) (spacing : R) (i j : nat) :
  (i < gridSize)%nat → (j < gridSize)%nat →
  ∃ netGroup netGeometry cell,
    createFishingNetWith gridSize spacing = Some (netGroup, netGeometry) ∧
    netGeometry !! i ≫= (.!! j) = Some cell ∧
    Cell.x cell = (INR j - INR gridSize / 2) * spacing ∧
    Cell.y cell = (INR i - INR gridSize / 2) * spacing.
Proof.
  intros Hi Hj. eexists _, _, _.
  split; [apply createFishingNetWith_eq|].
  split; [by apply lattice_lookup|done].
Qed.

Lemma lattice_coordinates_default :
  (3 < 25)%nat ∧ (4 < 25)%nat ∧
  ∃ netGroup netGeometry cell,
    createFishingNet = Some (netGroup, netGeometry) ∧
    netGeometry !! 3%nat ≫= (.!! 4%nat) = Some cell ∧
    Cell.x cell = (INR 4 - INR 25 / 2) * 1.0 ∧
    Cell.y cell = (INR 3 - INR 25 / 2) * 1.0.
Proof.
  split; [lia|]. split; [lia|].
  apply (lattice_coordinates 25 1.0 3 4); lia.
Defined.

(** ** The line meshes *)

(** C6: [createFishingNet] gives the group exactly [2 * gridSize] lines, and
    the position buffer of every line holds exactly [gridSize] points, three
    numbers each; the first [gridSize] lines are horizontal (line [i] stays
    at the y of row [i]) and the other [gridSize] are vertical (line
    [gridSize + j] stays at the x of column [j]). *)
Theorem line_mesh_counts (gridSize : nat) (spacing : R) :
  ∃ netGroup netGeometry,
    createFishingNetWith gridSize spacing = Some (netGroup, netGeometry) ∧
    length (Group.children netGroup) = (2 * gridSize)%nat ∧
    (∀ line, line ∈ Group.children netGroup →
       length (Line.positions line) = (3 * gridSize)%nat ∧
       ∀ p, (p < gridSize)%nat ↔ is_Some (getX line p)) ∧
    (∀ i j, (i < gridSize)%nat → (j < gridSize)%nat →
       ∃ hline vline,
         Group.children netGroup !! i = Some hline ∧
         Group.children netGroup !! (gridSize + j)%nat = Some vline ∧
         getY hline j = Some ((INR i - INR gridSize / 2) * spacing) ∧
         getX vline i = Some ((INR j - INR gridSize / 2) * spacing)).
Proof.
  eexists _, _. split; [apply createFishingNetWith_eq|]. cbn [Group.children].
  split; [by rewrite length_fmap, netPoints_length|]. split.
  - intros line (points & -> & Hpoints)%list_elem_of_fmap.
    apply netPoints_points in Hpoints.
    split; [by rewrite <- Hpoints; apply setFromPoints_length|].
    intros p. destruct (lineOf_get points p) as (-> & _).
    rewrite <- Hpoints, fmap_is_Some. symmetry. apply lookup_lt_is_Some.
  - intros i j Hi Hj.
    exists (lineOf (hpoint gridSize spacing i <$> seq 0 gridSize)),
           (lineOf (vpoint gridSize spacing j <$> seq 0 gridSize)).
    split; [by rewrite list_lookup_fmap, netPoints_hline|].
    split; [by rewrite list_lookup_fmap, netPoints_vline|].
    destruct (lineOf_get (hpoint gridSize spacing i <$> seq 0 gridSize) j)
      as (_ & -> & _).
    destruct (lineOf_get (vpoint gridSize spacing j <$> seq 0 gridSize) i)
      as (-> & _ & _).
    rewrite !list_lookup_fmap, !lookup_seq_lt by assumption.
    split; reflexivity.
Qed.

(** C2: as built, point [j] of the horizontal line of row [i] has the x and
    y of the cell at row [i], column [j], and depth
    [sin(j*0.3 + i*0.3)*1 + cos((x+y)*0.2)*0.5]; point [i] of the vertical
    line of column [j] has the same x and y and depth
    [cos(j*0.3 + i*0.3)*1 + sin((x+y)*0.2)*0.5]. *)
Theorem construction_depth (gridSize : nat) (spacing : R) (i j : nat) :
  (i < gridSize)%nat → (j < gridSize)%nat →
  ∃ netGroup netGeometry coord hline vline,
    createFishingNetWith gridSize spacing = Some (netGroup, netGeometry) ∧
    netGeometry !! i ≫= (.!! j) = Some coord ∧
    Group.children netGroup !! i = Some hline ∧
    Group.children netGroup !! (gridSize + j)%nat = Some vline ∧
    getX hline j = Some (Cell.x coord) ∧
    getY hline j = Some (Cell.y coord) ∧
    getZ hline j = Some (sin (INR j * 0.3 + INR i * 0.3) * 1 +
                         cos ((Cell.x coord + Cell.y coord) * 0.2) * 0.5) ∧
    getX vline i = Some (Cell.x coord) ∧
    getY vline i = Some (Cell.y coord) ∧
    getZ vline i = Some (cos (INR j * 0.3 + INR i * 0.3) * 1 +
                         sin ((Cell.x coord + Cell.y coord) * 0.2) * 0.5).
Proof.
  intros Hi Hj.
  exists (Group.mk (lineOf <$> netPoints gridSize spacing) 0 0),
         (lattice gridSize spacing), (cellAt gridSize spacing i j),
         (lineOf (hpoint gridSize spacing i <$> seq 0 gridSize)),
         (lineOf (vpoint gridSize spacing j <$> seq 0 gridSize)).
  split; [apply createFishingNetWith_eq|].
  split; [by apply lattice_lookup|]. cbn [Group.children].
  split; [by rewrite list_lookup_fmap, netPoints_hline|].
  split; [by rewrite list_lookup_fmap, netPoints_vline|].
  destruct (lineOf_get (hpoint gridSize spacing i <$> seq 0 gridSize) j)
    as (-> & -> & ->).
  destruct (lineOf_get (vpoint gridSize spacing j <$> seq 0 gridSize) i)
    as (-> & -> & ->).
  by rewrite !list_lookup_fmap, !lookup_seq_lt.
Qed.

Lemma construction_depth_default :
  (3 < 25)%nat ∧ (4 < 25)%nat ∧
  ∃ netGroup netGeometry coord hline vline,
    createFishingNet = Some (netGroup, netGeometry) ∧
    netGeometry !! 3%nat ≫= (.!! 4%nat) = Some coord ∧
    Group.children netGroup !! 3%nat = Some hline ∧
    Group.children netGroup !! (25 + 4)%nat = Some vline ∧
    getX hline 4 = Some (Cell.x coord) ∧
    getY hline 4 = Some (Cell.y coord) ∧
    getZ hline 4 = Some (sin (INR 4 * 0.3 + INR 3 * 0.3) * 1 +
                         cos ((Cell.x coord + Cell.y coord) * 0.2) * 0.5) ∧
    getX vline 3 = Some (Cell.x coord) ∧
    getY vline 3 = Some (Cell.y coord) ∧
    getZ vline 3 = Some (cos (INR 4 * 0.3 + INR 3 * 0.3) * 1 +
                         sin ((Cell.x coord + Cell.y coord) * 0.2) * 0.5).
Proof.
  split; [lia|]. split; [lia|].
  apply (construction_depth 25 1.0 3 4); lia.
Defined.

(** ** The centre of the lattice *)

Lemma lattice_cells gridSize spacing cell :
  cell ∈ mjoin (lattice gridSize spacing) ↔
  ∃ i j, (i < gridSize)%nat ∧ (j < gridSize)%nat ∧ cell = cellAt gridSize spacing i j.
Proof.
  unfold lattice. rewrite list_elem_of_join. split.
  - intros (row & Hcell & (i & -> & Hi)%list_elem_of_fmap).
    apply list_elem_of_fmap in Hcell as (j & -> & Hj).
    apply elem_of_seq in Hi, Hj. exists i, j. repeat split; lia.
  - intros (i & j & Hi & Hj & ->).
    exists (cellAt gridSize spacing i <$> seq 0 gridSize). split.
    + apply list_elem_of_fmap. exists j. split; [done|]. apply elem_of_seq. lia.
    + apply list_elem_of_fmap. exists i. split; [done|]. apply elem_of_seq. lia.
Qed.

(** The smallest coordinate is [-(gridSize/2) * spacing], at index 0, and the
    largest is one spacing short of its mirror image: whatever the grid
    size, no lattice of this construction is symmetric about 0. *)
Lemma lattice_never_symmetric gridSize spacing :
  (0 < gridSize)%nat → spacing ≠ 0 →
  ¬ symmetric_about_0 (xCoordinates (lattice gridSize spacing)) ∧
  ¬ symmetric_about_0 (yCoordinates (lattice gridSize spacing)).
Proof.
  intros Hn Hs.
  assert (∀ k, (k < gridSize)%nat →
            (INR k - INR gridSize / 2) * spacing ≠
            - ((INR 0 - INR gridSize / 2) * spacing)) as Hne.
  { intros k Hk Heq. apply lt_INR in Hk. cbn [INR] in Heq.
    assert ((INR k - INR gridSize) * spacing = 0) as H0 by lra.
    apply Rmult_integral in H0 as [H0|H0]; lra. }
  assert (cellAt gridSize spacing 0 0 ∈ mjoin (lattice gridSize spacing)) as H00.
  { apply lattice_cells. by exists 0%nat, 0%nat. }
  split; intros Hsym.
  - specialize (Hsym ((INR 0 - INR gridSize / 2) * spacing)).
    unfold xCoordinates in Hsym. rewrite !list_elem_of_fmap in Hsym.
    destruct Hsym as (cell & Hx & Hcell); [by exists (cellAt gridSize spacing 0 0)|].
    apply lattice_cells in Hcell as (i & j & Hi & Hj & ->).
    by apply (Hne j Hj).
  - specialize (Hsym ((INR 0 - INR gridSize / 2) * spacing)).
    unfold yCoordinates in Hsym. rewrite !list_elem_of_fmap in Hsym.
    destruct Hsym as (cell & Hy & Hcell); [by exists (cellAt gridSize spacing 0 0)|].
    apply lattice_cells in Hcell as (i & j & Hi & Hj & ->).
    by apply (Hne i Hi).
Qed.

(** C5, evaluated on the script's lattice: [createFishingNet] returns; -12.5
    occurs among the x coordinates and 12.5 does not, since every coordinate
    lies between -12.5 and 11.5; so neither the x nor the y coordinates are
    symmetric about 0, and the lattice is centred at (-0.5, -0.5). *)
Theorem lattice_off_centre :
  ∃ netGroup netGeometry,
    createFishingNet = Some (netGroup, netGeometry) ∧
    (-12.5 ∈ xCoordinates netGeometry) ∧
    (12.5 ∉ xCoordinates netGeometry) ∧
    (∀ v, v ∈ xCoordinates netGeometry ∨ v ∈ yCoordinates netGeometry →
          -12.5 <= v <= 11.5) ∧
    ¬ symmetric_about_0 (xCoordinates netGeometry) ∧
    ¬ symmetric_about_0 (yCoordinates netGeometry).
Proof.
  eexists _, _. split; [apply createFishingNetWith_eq|].
  assert (∀ v, v ∈ xCoordinates (lattice gridSize spacing) ∨
               v ∈ yCoordinates (lattice gridSize spacing) →
               -12.5 <= v <= 11.5) as Hrange.
  { intros v [Hv|Hv];
      apply list_elem_of_fmap in Hv as (cell & -> & Hcell);
      apply lattice_cells in Hcell as (i & j & Hi & Hj & ->);
      unfold gridSize in Hi, Hj;
      pose proof (pos_INR i); pose proof (pos_INR j);
      assert (INR i <= INR 24) by (apply le_INR; lia);
      assert (INR j <= INR 24) by (apply le_INR; lia);
      unfold cellAt, gridSize, spacing; cbn [Cell.x Cell.y];
      rewrite (INR_IZR_INZ 24) in *; rewrite (INR_IZR_INZ 25);
      change (Z.of_nat 24) with 24%Z in *; change (Z.of_nat 25) with 25%Z;
      lra. }
  split.
  { apply list_elem_of_fmap. exists (cellAt gridSize spacing 0 0). split.
    - unfold cellAt, gridSize, spacing. cbn [Cell.x].
      rewrite (INR_IZR_INZ 25). change (Z.of_nat 25) with 25%Z.
      change (INR 0) with 0. lra.
    - apply lattice_cells. exists 0%nat, 0%nat. unfold gridSize. repeat split; lia. }
  split.
  { intros H. specialize (Hrange 12.5 (or_introl H)). lra. }
  split; [exact Hrange|].
  apply lattice_never_symmetric; [unfold gridSize; lia|unfold spacing; lra].
Qed.

(** ** The wave *)

Lemma depth_swap x y time : depth x y time = depth y x time.
Proof.
  unfold depth. rewrite (Rplus_comm (x * 0.3) (y * 0.3)), (Rplus_comm x y).
  reflexivity.
Qed.

(** C1, as amended: in every world of a run and for every draw, [animate]
    returns and advances the time by [Math.floor(random * 20) * 0.001]; for
    every line of the net, whatever its orientation, and every point of it,
    the new z is [sin(x*0.3 + y*0.3 + time)*1 + cos((x+y)*0.2)*0.5] for the
    x and y the buffer held and the advanced time.  At (3, 4, 0) this is
    [sin(3*0.3 + 4*0.3 + 0)*1 + cos((3+4)*0.2)*0.5], and in binary64 the two
    arguments are 2.0999999999999996 and 1.4000000000000001, whatever the
    host's sine and cosine. *)
Theorem animate_recomputes_depth (innerWidth innerHeight : R) (es : list event)
    (random : R) :
  (∃ w0 w w',
     boot innerWidth innerHeight = Some w0 ∧ run es w0 = Some w ∧
     animate random w = Some w' ∧
     time w' = time w + Math_floor (random * 20) * 0.001 ∧
     length (Group.children (fishingNet w')) = length (Group.children (fishingNet w)) ∧
     ∀ k line p x y,
       Group.children (fishingNet w) !! k = Some line →
       getX line p = Some x → getY line p = Some y →
       ∃ line', Group.children (fishingNet w') !! k = Some line' ∧
                getX line' p = Some x ∧ getY line' p = Some y ∧
                getZ line' p = Some (sin (x * 0.3 + y * 0.3 + time w') * 1 +
                                     cos ((x + y) * 0.2) * 0.5)) ∧
  depth 3 4 0 = sin (3 * 0.3 + 4 * 0.3 + 0) * 1 + cos ((3 + 4) * 0.2) * 0.5 ∧
  ∀ sin64 cos64 : float → float,
    depth64 sin64 cos64 3 4 0 =
    (sin64 2.0999999999999996 * 1 + cos64 1.4000000000000001 * 0.5)%float.
Proof.
  split; [|split; [reflexivity|intros sin64 cos64; reflexivity]].
  destruct (boot_shape innerWidth innerHeight) as (w0 & Hboot & Hs0 & _).
  destruct (run_shape es w0 Hs0) as (w & Hrun & Hs & _).
  destruct (animate_shape random w Hs) as (w' & Hanim & Hwv & Htime).
  exists w0, w, w'. do 4 (split; [assumption|]). split.
  { rewrite Hwv. destruct Hs as [-> | ->]; by rewrite !length_fmap. }
  intros k line p x y Hline Hx Hy.
  destruct (net_shape_line w k line Hs Hline) as (points & Hk & _ & Hget).
  destruct (Hget p) as (Hgx & Hgy). rewrite Hgx in Hx. rewrite Hgy in Hy.
  destruct (points !! p) as [q|] eqn:Hq; [|discriminate Hx].
  injection Hx as <-. injection Hy as <-.
  exists (wavedLine (time w') points).
  split; [exact (waved_children w' k points Hwv Hk)|].
  destruct (wavedLine_get (time w') points p) as (-> & -> & ->).
  rewrite Hq. repeat split.
Qed.

(** In binary64 the claim's value at (3, 4, 0) is not the one the code
    computes.  With the binary64 numbers nearest to the sines and cosines,
    [animate]'s expression gives 0.9481929380989943 and
    [sin(2.1)*1 + cos(1.4)*0.5] gives 0.9481929380989942; so the identity
    does not hold for all hosts. *)
Lemma depth_3_4_0_is_not_at_2_1_and_1_4 :
  (depth64 nearestSin nearestCos 3 4 0 =? 0.9481929380989943)%float = true ∧
  (nearestSin 2.1 * 1 + nearestCos 1.4 * 0.5 =? 0.9481929380989942)%float = true ∧
  (depth64 nearestSin nearestCos 3 4 0 =?
   nearestSin 2.1 * 1 + nearestCos 1.4 * 0.5)%float = false ∧
  ¬ ∀ sin64 cos64 : float → float,
      depth64 sin64 cos64 3 4 0 = (sin64 2.1 * 1 + cos64 1.4 * 0.5)%float.
Proof.
  assert ((depth64 nearestSin nearestCos 3 4 0 =?
           nearestSin 2.1 * 1 + nearestCos 1.4 * 0.5)%float = false) as Hne
    by (vm_compute; reflexivity).
  do 2 (split; [vm_compute; reflexivity|]). split; [exact Hne|].
  intros Hall. rewrite (Hall nearestSin nearestCos) in Hne.
  vm_compute in Hne. discriminate Hne.
Qed.

Lemma SFadd_comm prec emax x y :
  SpecFloat.SFadd prec emax x y = SpecFloat.SFadd prec emax y x.
Proof.
  destruct x as [sx|sx| |sx mx ex], y as [sy|sy| |sy my ey];
    try reflexivity; try (destruct sx, sy; reflexivity).
  unfold SpecFloat.SFadd. rewrite (Z.min_comm ex ey). f_equal. apply Z.add_comm.
Qed.

(** Addition in binary64 is commutative. *)
Lemma add64_comm (a b : float) : (a + b)%float = (b + a)%float.
Proof.
  apply FloatAxioms.Prim2SF_inj. rewrite !FloatAxioms.add_spec.
  apply SFadd_comm.
Qed.

(** C10, as amended: the wave is symmetric in x and y, over the reals and in
    binary64 for every host sine and cosine, and in binary64 it depends on
    the position through the two computed sums [x + y] and [x*0.3 + y*0.3]
    only.  So in every world reached through a tick, two points of the net
    that are mirror images in the diagonal have the same z: any two points
    with coordinates (x, y) and (y, x), such as point [j] of horizontal line
    [i] and point [i] of horizontal line [j]. *)
Theorem depth_is_symmetric_in_x_and_y :
  (∀ x y time, depth x y time = depth y x time) ∧
  (∀ (sin64 cos64 : float → float) (a b time : float),
     depth64 sin64 cos64 a b time = depth64 sin64 cos64 b a time) ∧
  (∀ (sin64 cos64 : float → float) (a b a' b' time : float),
     (a + b)%float = (a' + b')%float →
     (a * 0.3 + b * 0.3)%float = (a' * 0.3 + b' * 0.3)%float →
     depth64 sin64 cos64 a b time = depth64 sin64 cos64 a' b' time) ∧
  ∀ innerWidth innerHeight es1 random es2,
    ∃ w0 w,
      boot innerWidth innerHeight = Some w0 ∧
      run (es1 ++ Frame random :: es2) w0 = Some w ∧
      (∀ k k' line line' p p' x y,
         Group.children (fishingNet w) !! k = Some line →
         Group.children (fishingNet w) !! k' = Some line' →
         getX line p = Some x → getY line p = Some y →
         getX line' p' = Some y → getY line' p' = Some x →
         getZ line p = getZ line' p') ∧
      (∀ i j, (i < gridSize)%nat → (j < gridSize)%nat →
         ∃ hline hline' a b z,
           Group.children (fishingNet w) !! i = Some hline ∧
           Group.children (fishingNet w) !! j = Some hline' ∧
           getX hline j = Some a ∧ getY hline j = Some b ∧
           getX hline' i = Some b ∧ getY hline' i = Some a ∧
           getZ hline j = Some z ∧ getZ hline' i = Some z).
Proof.
  split; [exact depth_swap|]. split.
  { intros sin64 cos64 a b time. unfold depth64.
    rewrite (add64_comm (a * 0.3) (b * 0.3)), (add64_comm a b). reflexivity. }
  split.
  { intros sin64 cos64 a b a' b' time Hab Hscaled. unfold depth64.
    rewrite Hab, Hscaled. reflexivity. }
  intros innerWidth innerHeight es1 random es2.
  destruct (run_frame innerWidth innerHeight es1 random es2)
    as (w0 & _ & _ & w & Hboot & _ & _ & _ & _ & _ & _ & _ & _ & Hwv & Hrun).
  exists w0, w. do 2 (split; [assumption|]). split.
  - intros k k' line line' p p' x y Hline Hline' Hx Hy Hx' Hy'.
    rewrite (waved_depth w k line p x y), (waved_depth w k' line' p' y x)
      by assumption.
    by rewrite (depth_swap x y).
  - intros i j Hi Hj.
    pose proof (waved_children w _ _ Hwv (netPoints_hline gridSize spacing i Hi)) as Hh.
    pose proof (waved_children w _ _ Hwv (netPoints_hline gridSize spacing j Hj)) as Hh'.
    eexists _, _, (Cell.x (cellAt gridSize spacing i j)),
                  (Cell.y (cellAt gridSize spacing i j)),
                  (depth (Cell.x (cellAt gridSize spacing i j))
                         (Cell.y (cellAt gridSize spacing i j)) (time w)).
    do 2 (split; [eassumption|]).
    destruct (wavedLine_get (time w) (hpoint gridSize spacing i <$> seq 0 gridSize) j)
      as (-> & -> & ->).
    destruct (wavedLine_get (time w) (hpoint gridSize spacing j <$> seq 0 gridSize) i)
      as (-> & -> & ->).
    rewrite !list_lookup_fmap, !lookup_seq_lt by assumption.
    do 5 (split; [reflexivity|]).
    cbn [fmap option_fmap option_map Nat.add]. f_equal.
    exact (depth_swap _ _ _).
Qed.

(** In binary64 the depth is not constant along an anti-diagonal.  The
    lattice points (-12.5, -10.5) and (-11.5, -11.5) have the same sum, and
    their sums [x*0.3 + y*0.3] differ; with the binary64 numbers nearest to
    the sines and cosines the depths at time 0 are -0.6345160278557271 and
    -0.6345160278557265. *)
Lemma antidiagonal_depths_differ :
  (-12.5 + -10.5 =? -11.5 + -11.5)%float = true ∧
  (-12.5 * 0.3 + -10.5 * 0.3 =? -11.5 * 0.3 + -11.5 * 0.3)%float = false ∧
  (depth64 nearestSin nearestCos (-12.5) (-10.5) 0 =? -0.6345160278557271)%float = true ∧
  (depth64 nearestSin nearestCos (-11.5) (-11.5) 0 =? -0.6345160278557265)%float = true ∧
  (depth64 nearestSin nearestCos (-12.5) (-10.5) 0 =?
   depth64 nearestSin nearestCos (-11.5) (-11.5) 0)%float = false ∧
  ¬ ∀ (sin64 cos64 : float → float) (a b a' b' time : float),
      (a + b)%float = (a' + b')%float →
      depth64 sin64 cos64 a b time = depth64 sin64 cos64 a' b' time.
Proof.
  assert ((depth64 nearestSin nearestCos (-12.5) (-10.5) 0 =?
           depth64 nearestSin nearestCos (-11.5) (-11.5) 0)%float = false) as Hne
    by (vm_compute; reflexivity).
  do 4 (split; [vm_compute; reflexivity|]). split; [exact Hne|].
  intros Hall.
  rewrite (Hall nearestSin nearestCos (-12.5) (-10.5) (-11.5) (-11.5) 0)%float in Hne
    by (vm_compute; reflexivity).
  vm_compute in Hne. discriminate Hne.
Qed.

(** ** Ticks *)

(** C3: after any run from [boot] (ticks, with resizes between them or
    without) the net has the lines it was built with, every buffer has its
    length, and the x and the y of every point are the ones of construction:
    only the z entries can differ. *)
Theorem ticks_keep_x_and_y (innerWidth innerHeight : R) (es : list event) :
  ∃ w0 w,
    boot innerWidth innerHeight = Some w0 ∧ run es w0 = Some w ∧
    length (Group.children (fishingNet w)) = length (Group.children (fishingNet w0)) ∧
    ∀ k line0,
      Group.children (fishingNet w0) !! k = Some line0 →
      ∃ line,
        Group.children (fishingNet w) !! k = Some line ∧
        length (Line.positions line) = length (Line.positions line0) ∧
        ∀ p, getX line p = getX line0 p ∧ getY line p = getY line0 p.
Proof.
  destruct (boot_shape innerWidth innerHeight) as (w0 & Hboot & Hs0 & _).
  destruct (run_shape es w0 Hs0) as (w & Hrun & Hs & _).
  exists w0, w. do 2 (split; [done|]).
  assert (length (Group.children (fishingNet w)) =
          length (netPoints gridSize spacing)) as Hlen.
  { destruct Hs as [-> | ->]; by rewrite length_fmap. }
  assert (length (Group.children (fishingNet w0)) =
          length (netPoints gridSize spacing)) as Hlen0.
  { destruct Hs0 as [-> | ->]; by rewrite length_fmap. }
  split; [congruence|]. intros k line0 Hline0.
  destruct (lookup_lt_is_Some_2 (Group.children (fishingNet w)) k) as [line Hline].
  { rewrite Hlen, <- Hlen0. by eapply lookup_lt_Some. }
  exists line. split; [done|].
  destruct (net_shape_line w0 k line0 Hs0 Hline0) as (points0 & Hk0 & Hl0 & Hget0).
  destruct (net_shape_line w k line Hs Hline) as (points & Hk & Hl & Hget).
  assert (points = points0) as -> by congruence.
  split; [congruence|]. intros p.
  destruct (Hget p) as (-> & ->). destruct (Hget0 p) as (-> & ->).
  split; reflexivity.
Qed.

Lemma Math_floor_step random :
  0 <= random < 1 → 0 <= Math_floor (random * 20) * 0.001 <= 0.019.
Proof.
  intros Hr. unfold Math_floor.
  destruct (base_Int_part (random * 20)) as [Hle Hgt].
  assert (-1 < Int_part (random * 20))%Z as H0 by (apply lt_IZR; lra).
  assert (Int_part (random * 20) < 20)%Z as H19 by (apply lt_IZR; lra).
  assert (0 <= Int_part (random * 20))%Z as H0' by lia.
  assert (Int_part (random * 20) <= 19)%Z as H19' by lia.
  apply IZR_le in H0', H19'. lra.
Qed.

Lemma animate_time random w w' :
  animate random w = Some w' →
  time w' = time w + Math_floor (random * 20) * 0.001.
Proof.
  unfold animate. intros H.
  destruct (mapM _ _); [|done]. by injection H as <-.
Qed.

Lemma run_time es w w' :
  Forall unit_draw es → run es w = Some w' → time w <= time w'.
Proof.
  intros Hes. revert w. induction Hes as [|e es He _ IH]; intros w Hrun.
  - injection Hrun as <-. lra.
  - cbn in Hrun. destruct (handle e w) as [w1|] eqn:Hw1; [|done].
    apply IH in Hrun. destruct e as [random | newWidth newHeight].
    + apply animate_time in Hw1. pose proof (Math_floor_step random He). lra.
    + injection Hw1 as <-. exact Hrun.
Qed.

(** C7: [time] is 0 when the script has set it up; between any two worlds of
    a run whose draws are in [[0, 1)] it does not decrease; and a tick
    advances it by [Math.floor(random * 20) * 0.001], a number between 0 and
    0.019. *)
Theorem time_never_decreases (innerWidth innerHeight : R)
    (es1 es2 : list event) (random : R) :
  Forall unit_draw (es1 ++ es2) → 0 <= random < 1 →
  ∃ w0 w1 w2 w3,
    boot innerWidth innerHeight = Some w0 ∧ time w0 = 0 ∧
    run es1 w0 = Some w1 ∧ run es2 w1 = Some w2 ∧
    time w0 <= time w1 ∧ time w1 <= time w2 ∧
    animate random w2 = Some w3 ∧
    time w3 = time w2 + Math_floor (random * 20) * 0.001 ∧
    0 <= Math_floor (random * 20) * 0.001 <= 0.019 ∧
    time w2 <= time w3.
Proof.
  intros [Hes1 Hes2]%Forall_app Hr.
  destruct (boot_shape innerWidth innerHeight) as (w0 & Hboot & Hs0 & Ht0).
  destruct (run_shape es1 w0 Hs0) as (w1 & Hrun1 & Hs1 & _).
  destruct (run_shape es2 w1 Hs1) as (w2 & Hrun2 & Hs2 & _).
  destruct (animate_shape random w2 Hs2) as (w3 & Hanim & _ & Ht3).
  pose proof (Math_floor_step random Hr) as Hstep.
  exists w0, w1, w2, w3.
  do 4 (split; [assumption|]).
  split; [exact (run_time es1 w0 w1 Hes1 Hrun1)|].
  split; [exact (run_time es2 w1 w2 Hes2 Hrun2)|].
  do 3 (split; [assumption|]). lra.
Qed.

Lemma time_never_decreases_run :
  Forall unit_draw ([Frame 0.5; Resize 800 600] ++ [Frame 0.99]) ∧
  0 <= 0.26 < 1 ∧
  ∃ w0 w1 w2 w3,
    boot 1024 768 = Some w0 ∧ time w0 = 0 ∧
    run [Frame 0.5; Resize 800 600] w0 = Some w1 ∧
    run [Frame 0.99] w1 = Some w2 ∧
    time w0 <= time w1 ∧ time w1 <= time w2 ∧
    animate 0.26 w2 = Some w3 ∧
    time w3 = time w2 + Math_floor (0.26 * 20) * 0.001 ∧
    0 <= Math_floor (0.26 * 20) * 0.001 <= 0.019 ∧
    time w2 <= time w3.
Proof.
  assert (Forall unit_draw ([Frame 0.5; Resize 800 600] ++ [Frame 0.99])) as Hes.
  { repeat constructor; simpl; lra. }
  assert (0 <= 0.26 < 1) as Hr by lra.
  split; [exact Hes|]. split; [exact Hr|].
  exact (time_never_decreases 1024 768 [Frame 0.5; Resize 800 600] [Frame 0.99]
           0.26 Hes Hr).
Defined.

(** ** The resize listener *)

(** C8: for every resize to [(newWidth, newHeight)], in any world, the
    listener leaves the camera with aspect [newWidth / newHeight] and with a
    projection computed from that aspect and the camera's other parameters,
    and the renderer with size [(newWidth, newHeight)]; all else is kept.
    For (800, 600) the aspect is 800/600. *)
Theorem resize_sets_aspect_and_size (w : World) (newWidth newHeight : R) :
  (∃ w',
     handle (Resize newWidth newHeight) w = Some w' ∧
     Camera.aspect (camera w') = newWidth / newHeight ∧
     Camera.projectionMatrix (camera w') =
       Projection.mk (Camera.fov (camera w)) (newWidth / newHeight)
                     (Camera.near (camera w)) (Camera.far (camera w)) ∧
     Renderer.width (renderer w') = newWidth ∧
     Renderer.height (renderer w') = newHeight ∧
     Camera.fov (camera w') = Camera.fov (camera w) ∧
     Camera.near (camera w') = Camera.near (camera w) ∧
     Camera.far (camera w') = Camera.far (camera w) ∧
     Camera.position (camera w') = Camera.position (camera w) ∧
     fishingNet w' = fishingNet w ∧ time w' = time w) ∧
  (∃ w',
     handle (Resize 800 600) w = Some w' ∧
     Camera.aspect (camera w') = 800 / 600 ∧
     Renderer.width (renderer w') = 800 ∧
     Renderer.height (renderer w') = 600).
Proof. split; by eexists. Qed.

(** ** The net after the first tick *)

(** As built, the two lines through the corner of the lattice disagree: the
    horizontal line 0 and the vertical line 0 meet at their points 0, with
    the same x and y there, and carry different depths. *)
Lemma construction_asymmetry innerWidth innerHeight w0 :
  boot innerWidth innerHeight = Some w0 →
  ∃ hline vline x y zh zv,
    Group.children (fishingNet w0) !! 0%nat = Some hline ∧
    Group.children (fishingNet w0) !! gridSize = Some vline ∧
    getX hline 0 = Some x ∧ getX vline 0 = Some x ∧
    getY hline 0 = Some y ∧ getY vline 0 = Some y ∧
    getZ hline 0 = Some zh ∧ getZ vline 0 = Some zv ∧ zh ≠ zv.
Proof.
  intros Hboot. rewrite (boot_children _ _ _ Hboot).
  assert (0 < gridSize)%nat as H0 by (unfold gridSize; lia).
  pose proof (netPoints_hline gridSize spacing 0 H0) as Hh.
  pose proof (netPoints_vline gridSize spacing 0 H0) as Hv.
  rewrite Nat.add_0_r in Hv.
  exists (lineOf (hpoint gridSize spacing 0 <$> seq 0 gridSize)),
         (lineOf (vpoint gridSize spacing 0 <$> seq 0 gridSize)),
         (Vector3.x (hpoint gridSize spacing 0 0)),
         (Vector3.y (hpoint gridSize spacing 0 0)),
         (Vector3.z (hpoint gridSize spacing 0 0)),
         (Vector3.z (vpoint gridSize spacing 0 0)).
  split; [by rewrite list_lookup_fmap, Hh|].
  split; [by rewrite list_lookup_fmap, Hv|].
  destruct (lineOf_get (hpoint gridSize spacing 0 <$> seq 0 gridSize) 0)
    as (-> & -> & ->).
  destruct (lineOf_get (vpoint gridSize spacing 0 <$> seq 0 gridSize) 0)
    as (-> & -> & ->).
  rewrite !list_lookup_fmap, !lookup_seq_lt by assumption.
  do 6 (split; [reflexivity|]).
  unfold hpoint, vpoint. cbn [Vector3.z INR].
  set (a := (Cell.x (cellAt gridSize spacing 0 0) +
             Cell.y (cellAt gridSize spacing 0 0)) * 0.2).
  replace (0 * 0.3 + 0 * 0.3) with 0 by lra. rewrite sin_0, cos_0.
  pose proof (SIN_bound a) as [Hsin _]. pose proof (COS_bound a) as [_ Hcos].
  pose proof (sin2_cos2 a) as Hsq. unfold Rsqr in Hsq.
  intros Heq.
  assert (sin a = -1) as Hs by lra. assert (cos a = 1) as Hc by lra.
  rewrite Hs, Hc in Hsq. lra.
Qed.

(** C9: as built, the net has a crossing where the horizontal and the
    vertical line disagree on the depth; in every world of a run that has a
    tick behind it, every point of every line has
    [z = sin(x*0.3 + y*0.3 + time)*1 + cos((x+y)*0.2)*0.5] for its own x and
    y and the current time; so a horizontal and a vertical line carry the
    same z where they cross, as do any two points with the same x and y. *)
Theorem one_wave_after_first_tick (innerWidth innerHeight : R)
    (es1 : list event) (random : R) (es2 : list event) :
  ∃ w0 w,
    boot innerWidth innerHeight = Some w0 ∧
    run (es1 ++ Frame random :: es2) w0 = Some w ∧
    (∃ hline vline x y zh zv,
       Group.children (fishingNet w0) !! 0%nat = Some hline ∧
       Group.children (fishingNet w0) !! gridSize = Some vline ∧
       getX hline 0 = Some x ∧ getX vline 0 = Some x ∧
       getY hline 0 = Some y ∧ getY vline 0 = Some y ∧
       getZ hline 0 = Some zh ∧ getZ vline 0 = Some zv ∧ zh ≠ zv) ∧
    (∀ k line p x y,
       Group.children (fishingNet w) !! k = Some line →
       getX line p = Some x → getY line p = Some y →
       getZ line p = Some (sin (x * 0.3 + y * 0.3 + time w) * 1 +
                           cos ((x + y) * 0.2) * 0.5)) ∧
    (∀ i j, (i < gridSize)%nat → (j < gridSize)%nat →
       ∃ hline vline x y,
         Group.children (fishingNet w) !! i = Some hline ∧
         Group.children (fishingNet w) !! (gridSize + j)%nat = Some vline ∧
         getX hline j = Some x ∧ getX vline i = Some x ∧
         getY hline j = Some y ∧ getY vline i = Some y ∧
         getZ hline j = Some (sin (x * 0.3 + y * 0.3 + time w) * 1 +
                              cos ((x + y) * 0.2) * 0.5) ∧
         getZ vline i = Some (sin (x * 0.3 + y * 0.3 + time w) * 1 +
                              cos ((x + y) * 0.2) * 0.5)) ∧
    (∀ k k' line line' p p' x y,
       Group.children (fishingNet w) !! k = Some line →
       Group.children (fishingNet w) !! k' = Some line' →
       getX line p = Some x → getY line p = Some y →
       getX line' p' = Some x → getY line' p' = Some y →
       getZ line p = getZ line' p').
Proof.
  destruct (run_frame innerWidth innerHeight es1 random es2)
    as (w0 & _ & _ & w & Hboot & _ & _ & _ & _ & _ & _ & _ & _ & Hwv & Hrun).
  exists w0, w. do 2 (split; [assumption|]).
  split; [exact (construction_asymmetry _ _ _ Hboot)|].
  split; [intros k line p x y; exact (waved_depth w k line p x y Hwv)|]. split.
  - intros i j Hi Hj.
    pose proof (waved_children w _ _ Hwv (netPoints_hline gridSize spacing i Hi)) as Hh.
    pose proof (waved_children w _ _ Hwv (netPoints_vline gridSize spacing j Hj)) as Hv.
    eexists _, _, (Cell.x (cellAt gridSize spacing i j)),
                  (Cell.y (cellAt gridSize spacing i j)).
    do 2 (split; [eassumption|]).
    destruct (wavedLine_get (time w) (hpoint gridSize spacing i <$> seq 0 gridSize) j)
      as (-> & -> & ->).
    destruct (wavedLine_get (time w) (vpoint gridSize spacing j <$> seq 0 gridSize) i)
      as (-> & -> & ->).
    rewrite !list_lookup_fmap, !lookup_seq_lt by assumption.
    repeat split; reflexivity.
  - intros k k' line line' p p' x y Hline Hline' Hx Hy Hx' Hy'.
    by rewrite (waved_depth w k line p x y), (waved_depth w k' line' p' x y).
Qed.

(** ** Steps of a run *)

Lemma animate_inv random w w' :
  animate random w = Some w' →
  ∃ children,
    mapM (updateLine (time w + Math_floor (random * 20) * 0.001))
         (Group.children (fishingNet w)) = Some children ∧
    w' = mkWorld (innerWidth w) (innerHeight w) (background w) (camera w)
           (renderer w)
           (Group.mk children
              (PI / 4 + sin (time w + Math_floor (random * 20) * 0.001) * 0.1)
              (cos (time w + Math_floor (random * 20) * 0.001) * 0.2))
           (netGeometry w) (time w + Math_floor (random * 20) * 0.001)
           (S (requested w)) (S (rendered w)).
Proof.
  unfold animate. intros H.
  destruct (mapM _ _) as [children|]; [|discriminate H].
  exists children. split; [reflexivity|]. injection H as <-. reflexivity.
Qed.

Lemma run_invariant (P : World → Prop) es w w' :
  (∀ e v v', handle e v = Some v' → P v → P v') →
  run es w = Some w' → P w → P w'.
Proof.
  intros Hstep. revert w. induction es as [|e es IH]; intros w Hrun Hw.
  - injection Hrun as <-. exact Hw.
  - cbn [run] in Hrun. destruct (handle e w) as [w1|] eqn:Hw1; [|discriminate Hrun].
    cbn [mbind option_bind] in Hrun. apply (IH w1 Hrun). exact (Hstep e w w1 Hw1 Hw).
Qed.

Lemma run_from_boot innerWidth innerHeight es :
  ∃ w0 w, boot innerWidth innerHeight = Some w0 ∧ run es w0 = Some w ∧
          net_shape w.
Proof.
  destruct (boot_shape innerWidth innerHeight) as (w0 & Hboot & Hs0 & _).
  destruct (run_shape es w0 Hs0) as (w & Hrun & Hs & _).
  exists w0, w. split; [assumption|]. split; assumption.
Qed.

(** ** What a run counts and what it leaves alone *)

Lemma run_counts es w w' :
  run es w = Some w' →
  requested w' = (requested w + frames es)%nat ∧
  rendered w' = (rendered w + frames es)%nat.
Proof.
  revert w. induction es as [|e es IH]; intros w Hrun.
  - injection Hrun as <-. cbn [frames]. split; lia.
  - cbn [run] in Hrun. destruct (handle e w) as [w1|] eqn:Hw1; [|discriminate Hrun].
    cbn [mbind option_bind] in Hrun. destruct (IH w1 Hrun) as [Hreq Hren].
    destruct e as [random | newWidth newHeight]; cbn [handle frames] in *.
    + apply animate_inv in Hw1 as (children & _ & ->).
      cbn [requested rendered] in Hreq, Hren. split; lia.
    + injection Hw1 as <-. cbn [requested rendered onResize resizeWindow] in Hreq, Hren.
      split; assumption.
Qed.

(** X4: every tick requests exactly one further animation frame and renders
    exactly once, and a resize does neither: after any run from [boot] both
    counts equal the number of ticks of the run. *)
Theorem one_request_and_one_render_per_tick (innerWidth innerHeight : R)
    (es : list event) :
  ∃ w0 w,
    boot innerWidth innerHeight = Some w0 ∧ run es w0 = Some w ∧
    requested w = frames es ∧ rendered w = frames es.
Proof.
  destruct (run_from_boot innerWidth innerHeight es) as (w0 & w & Hboot & Hrun & _).
  exists w0, w. do 2 (split; [assumption|]).
  destruct (run_counts es w0 w Hrun) as [-> ->].
  rewrite boot_eq in Hboot. injection Hboot as Hboot. rewrite <- Hboot.
  cbn [requested rendered]. split; reflexivity.
Qed.

Lemma handle_fixedParts e w w' :
  handle e w = Some w' → fixedParts w' = fixedParts w.
Proof.
  destruct e as [random | newWidth newHeight]; cbn [handle].
  - intros (children & _ & ->)%animate_inv. reflexivity.
  - intros H. injection H as <-. reflexivity.
Qed.

(** X5: the fixed parts of the scene are the script's constants and no run
    changes them: the background colour, the camera's field of view and
    clipping planes, its position (0, 12, 5) and its target (0, 0, 0), the
    renderer's antialiasing and the lattice [netGeometry]; and every line of
    the net keeps the one shared material (white, opacity 0.4,
    transparent). *)
Theorem scene_constants_are_kept (innerWidth innerHeight : R) (es : list event) :
  ∃ w0 w,
    boot innerWidth innerHeight = Some w0 ∧ run es w0 = Some w ∧
    background w = 0x55CEFF%Z ∧
    Camera.fov (camera w) = 75 ∧
    Camera.near (camera w) = 0.1 ∧
    Camera.far (camera w) = 1000 ∧
    Camera.position (camera w) = Vector3.mk 0 12 5 ∧
    Camera.target (camera w) = Vector3.mk 0 0 0 ∧
    Renderer.antialias (renderer w) = true ∧
    netGeometry w = netGeometry w0 ∧
    ∀ line, line ∈ Group.children (fishingNet w) →
      Line.material line = Material.mk 0xffffff 0.4 true.
Proof.
  destruct (run_from_boot innerWidth innerHeight es) as (w0 & w & Hboot & Hrun & Hs).
  exists w0, w. do 2 (split; [assumption|]).
  assert (fixedParts w = fixedParts w0) as Hfixed.
  { apply (run_invariant (λ v, fixedParts v = fixedParts w0) es w0 w);
      [|assumption|reflexivity].
    intros e v v' Hv Hp. rewrite <- Hp. exact (handle_fixedParts e v v' Hv). }
  rewrite boot_eq in Hboot. injection Hboot as Hboot. rewrite <- Hboot in Hfixed.
  unfold fixedParts in Hfixed.
  cbn [background camera renderer netGeometry Camera.fov Camera.near Camera.far
       Camera.position Camera.target Renderer.antialias lookAt position_set
       PerspectiveCamera updateProjectionMatrix] in Hfixed.
  injection Hfixed as Hbg Hfov Hnear Hfar Hpos Htarget Hanti Hgeo.
  do 7 (split; [assumption|]).
  split; [rewrite <- Hboot; exact Hgeo|].
  intros line Hline.
  destruct Hs as [Hs | Hs]; rewrite Hs in Hline;
    apply list_elem_of_fmap in Hline as (points & -> & _); reflexivity.
Qed.

(** ** Camera and renderer follow the window *)

Lemma handle_fitted e w w' : handle e w = Some w' → fitted w → fitted w'.
Proof.
  destruct e as [random | newWidth newHeight]; cbn [handle].
  - intros (children & _ & ->)%animate_inv Hw. exact Hw.
  - intros H _. injection H as <-. repeat split.
Qed.

Lemma handle_windowSize e w w' :
  handle e w = Some w' →
  (innerWidth w', innerHeight w') = windowSize (innerWidth w, innerHeight w) [e].
Proof.
  destruct e as [random | newWidth newHeight]; cbn [handle windowSize].
  - intros (children & _ & ->)%animate_inv. reflexivity.
  - intros H. injection H as <-. reflexivity.
Qed.

Lemma run_windowSize es w w' :
  run es w = Some w' →
  (innerWidth w', innerHeight w') = windowSize (innerWidth w, innerHeight w) es.
Proof.
  revert w. induction es as [|e es IH]; intros w Hrun.
  - injection Hrun as <-. reflexivity.
  - cbn [run] in Hrun. destruct (handle e w) as [w1|] eqn:Hw1; [|discriminate Hrun].
    cbn [mbind option_bind] in Hrun. rewrite (IH w1 Hrun).
    rewrite (handle_windowSize e w w1 Hw1).
    destruct e; reflexivity.
Qed.

(** X6: camera and renderer always fit the window.  After any run from
    [boot] the window has the size of the last resize (its first size if
    there was none), the renderer has that size, the camera's aspect ratio
    is its width over its height, and the projection is the one of the
    camera's current parameters: no tick and no resize leaves a stale
    projection or size behind. *)
Theorem camera_and_renderer_fit_the_window (innerWidth0 innerHeight0 : R)
    (es : list event) :
  ∃ w0 w,
    boot innerWidth0 innerHeight0 = Some w0 ∧ run es w0 = Some w ∧
    (innerWidth w, innerHeight w) = windowSize (innerWidth0, innerHeight0) es ∧
    Renderer.width (renderer w) = innerWidth w ∧
    Renderer.height (renderer w) = innerHeight w ∧
    Camera.aspect (camera w) = innerWidth w / innerHeight w ∧
    Camera.projectionMatrix (camera w) =
      Projection.mk 75 (innerWidth w / innerHeight w) 0.1 1000.
Proof.
  destruct (run_from_boot innerWidth0 innerHeight0 es) as (w0 & w & Hboot & Hrun & _).
  exists w0, w. do 2 (split; [assumption|]).
  assert (fitted w0 ∧ fixedParts w0 = fixedParts w0 ∧
          innerWidth w0 = innerWidth0 ∧ innerHeight w0 = innerHeight0)
    as (Hfit0 & _ & Hw0 & Hh0).
  { rewrite boot_eq in Hboot. injection Hboot as Hboot. rewrite <- Hboot.
    repeat split. }
  assert (fitted w) as (Hwidth & Hheight & Haspect & Hproj).
  { apply (run_invariant fitted es w0 w); [|assumption|assumption].
    intros e v v'. apply handle_fitted. }
  assert (fixedParts w = fixedParts w0) as Hfixed.
  { apply (run_invariant (λ v, fixedParts v = fixedParts w0) es w0 w);
      [|assumption|reflexivity].
    intros e v v' Hv Hp. rewrite <- Hp. exact (handle_fixedParts e v v' Hv). }
  split; [rewrite <- Hw0, <- Hh0; exact (run_windowSize es w0 w Hrun)|].
  do 3 (split; [assumption|]).
  rewrite Hproj, Haspect.
  rewrite boot_eq in Hboot. injection Hboot as Hboot. rewrite <- Hboot in Hfixed.
  unfold fixedParts in Hfixed.
  cbn [background camera renderer netGeometry Camera.fov Camera.near Camera.far
       Camera.position Camera.target Renderer.antialias lookAt position_set
       PerspectiveCamera updateProjectionMatrix] in Hfixed.
  injection Hfixed as _ Hfov Hnear Hfar _ _ _ _.
  rewrite Hfov, Hnear, Hfar. reflexivity.
Qed.

(** ** The rotation of the net *)

Lemma handle_rotating e w w' : handle e w = Some w' → rotating w → rotating w'.
Proof.
  destruct e as [random | newWidth newHeight]; cbn [handle].
  - intros (children & _ & ->)%animate_inv _. split; reflexivity.
  - intros H Hw. injection H as <-. exact Hw.
Qed.

Lemma animate_rotating random w w' : animate random w = Some w' → rotating w'.
Proof. intros (children & _ & ->)%animate_inv. split; reflexivity. Qed.


(** ** The range of the depth *)

Lemma depth_bound x y time : -1.5 <= depth x y time <= 1.5.
Proof.
  unfold depth.
  pose proof (SIN_bound (x * 0.3 + y * 0.3 + time)) as [? ?].
  pose proof (COS_bound ((x + y) * 0.2)) as [? ?]. lra.
Qed.

Lemma netPoints_z_bound gridSize spacing points q :
  points ∈ netPoints gridSize spacing → q ∈ points → -1.5 <= Vector3.z q <= 1.5.
Proof.
  unfold netPoints. rewrite elem_of_app, !list_elem_of_fmap.
  intros [(i & -> & _) | (j & -> & _)] (k & -> & _)%list_elem_of_fmap;
    unfold hpoint, vpoint; cbn [Vector3.z].
  - pose proof (SIN_bound (INR k * 0.3 + INR i * 0.3)) as [? ?].
    pose proof (COS_bound ((Cell.x (cellAt gridSize spacing i k) +
                            Cell.y (cellAt gridSize spacing i k)) * 0.2)) as [? ?].
    lra.
  - pose proof (COS_bound (INR j * 0.3 + INR k * 0.3)) as [? ?].
    pose proof (SIN_bound ((Cell.x (cellAt gridSize spacing k j) +
                            Cell.y (cellAt gridSize spacing k j)) * 0.2)) as [? ?].
    lra.
Qed.

(** X1: the wave has amplitude 1.5: [depth x y time] lies in [[-1.5, 1.5]]
    for all arguments, and in every world of a run from [boot], before the
    first tick as after it, every z of every line of the net lies in
    [[-1.5, 1.5]]. *)
Theorem depth_stays_within_amplitude (innerWidth innerHeight : R)
    (es : list event) :
  (∀ x y time, -1.5 <= depth x y time <= 1.5) ∧
  ∃ w0 w,
    boot innerWidth innerHeight = Some w0 ∧ run es w0 = Some w ∧
    ∀ k line p z,
      Group.children (fishingNet w) !! k = Some line →
      getZ line p = Some z → -1.5 <= z <= 1.5.
Proof.
  split; [exact depth_bound|].
  destruct (run_from_boot innerWidth innerHeight es) as (w0 & w & Hboot & Hrun & Hs).
  exists w0, w. do 2 (split; [assumption|]).
  intros k line p z Hline Hz.
  destruct Hs as [Hs | Hs]; rewrite Hs, list_lookup_fmap in Hline;
    destruct (netPoints gridSize spacing !! k) as [points|] eqn:Hk;
    try discriminate Hline; injection Hline as <-.
  - destruct (lineOf_get points p) as (_ & _ & Hgz). rewrite Hgz in Hz.
    destruct (points !! p) as [q|] eqn:Hq; [|discriminate Hz].
    injection Hz as <-.
    apply (netPoints_z_bound gridSize spacing points q).
    + apply list_elem_of_lookup. exists k. exact Hk.
    + apply list_elem_of_lookup. exists p. exact Hq.
  - destruct (wavedLine_get (time w) points p) as (_ & _ & Hgz). rewrite Hgz in Hz.
    destruct (points !! p) as [q|]; [|discriminate Hz].
    injection Hz as <-. apply depth_bound.
Qed.

(** ** The net as a function of the clock *)

(** X11: the net keeps no memory of earlier ticks.  Two runs from [boot],
    each with a tick in it, whatever their windows, resizes and draws, that
    end at the same time end with the same net: the same buffers, flags,
    materials and rotation. *)
Theorem net_is_determined_by_time (innerWidth innerHeight : R)
    (es1 : list event) (random : R) (es2 : list event)
    (innerWidth' innerHeight' : R)
    (es1' : list event) (random' : R) (es2' : list event) :
  ∃ w0 w w0' w',
    boot innerWidth innerHeight = Some w0 ∧
    run (es1 ++ Frame random :: es2) w0 = Some w ∧
    boot innerWidth' innerHeight' = Some w0' ∧
    run (es1' ++ Frame random' :: es2') w0' = Some w' ∧
    (time w = time w' → fishingNet w = fishingNet w').
Proof.
  destruct (run_frame innerWidth innerHeight es1 random es2)
    as (w0 & w1 & w2 & w & Hboot & _ & _ & _ & _ & Hanim & _ & _ & Hrun2 & Hwv & Hrun).
  destruct (run_frame innerWidth' innerHeight' es1' random' es2')
    as (w0' & w1' & w2' & w' & Hboot' & _ & _ & _ & _ & Hanim' & _ & _ & Hrun2' & Hwv' & Hrun').
  exists w0, w, w0', w'. do 4 (split; [assumption|]).
  assert (rotating w) as [Hx Hy].
  { apply (run_invariant rotating es2 w2 w); [|assumption|].
    - intros e v v'. apply handle_rotating.
    - exact (animate_rotating random w1 w2 Hanim). }
  assert (rotating w') as [Hx' Hy'].
  { apply (run_invariant rotating es2' w2' w'); [|assumption|].
    - intros e v v'. apply handle_rotating.
    - exact (animate_rotating random' w1' w2' Hanim'). }
  intros Htime. unfold waved in Hwv, Hwv'.
  destruct (fishingNet w) as [children rx ry].
  destruct (fishingNet w') as [children' rx' ry'].
  cbn [Group.children Group.rotation_x Group.rotation_y] in *.
  rewrite Hwv, Hwv', Hx, Hx', Hy, Hy', Htime. reflexivity.
Qed.

(** ** The pace of the clock *)

Lemma Math_floor_low random : 0 <= random < 0.05 → Math_floor (random * 20) = 0.
Proof.
  intros Hr. unfold Math_floor.
  rewrite <- (Int_part_spec (random * 20) 0); [reflexivity|]. lra.
Qed.

(** X12: a draw below 0.05 stops the clock for one tick.  In a world that
    has a tick behind it, [animate] with such a draw returns and leaves
    [time] and the whole net, buffers and rotation, as they were; only the
    counts of requested and rendered frames go up. *)
Theorem low_draw_is_a_still_frame (innerWidth innerHeight : R)
    (es1 : list event) (random0 : R) (es2 : list event) (random : R) :
  0 <= random < 0.05 →
  ∃ w0 w w',
    boot innerWidth innerHeight = Some w0 ∧
    run (es1 ++ Frame random0 :: es2) w0 = Some w ∧
    animate random w = Some w' ∧
    time w' = time w ∧ fishingNet w' = fishingNet w ∧
    requested w' = S (requested w) ∧ rendered w' = S (rendered w).
Proof.
  intros Hr.
  destruct (run_frame innerWidth innerHeight es1 random0 es2)
    as (w0 & w1 & w2 & w & Hboot & _ & _ & _ & _ & Hanim & _ & _ & Hrun2 & Hwv & Hrun).
  assert (rotating w) as [Hx Hy].
  { apply (run_invariant rotating es2 w2 w); [|assumption|].
    - intros e v v'. apply handle_rotating.
    - exact (animate_rotating random0 w1 w2 Hanim). }
  destruct (animate_shape random w (waved_shape w Hwv)) as (w' & Hanim' & Hwv' & Ht').
  exists w0, w, w'. do 3 (split; [assumption|]).
  rewrite (Math_floor_low random Hr) in Ht'.
  assert (time w' = time w) as Htime by lra.
  split; [exact Htime|].
  pose proof (animate_rotating random w w' Hanim') as [Hx' Hy'].
  apply animate_inv in Hanim' as (children & _ & Hw').
  split.
  - unfold waved in Hwv, Hwv'.
    destruct (fishingNet w) as [c rx ry]. destruct (fishingNet w') as [c' rx' ry'].
    cbn [Group.children Group.rotation_x Group.rotation_y] in *.
    rewrite Hwv, Hwv', Hx, Hx', Hy, Hy', Htime. reflexivity.
  - rewrite Hw'. split; reflexivity.
Qed.

Lemma low_draw_is_a_still_frame_run :
  0 <= 0.03 < 0.05 ∧
  ∃ w0 w w',
    boot 1024 768 = Some w0 ∧
    run ([Resize 800 600] ++ Frame 0.5 :: [Frame 0.99]) w0 = Some w ∧
    animate 0.03 w = Some w' ∧
    time w' = time w ∧ fishingNet w' = fishingNet w ∧
    requested w' = S (requested w) ∧ rendered w' = S (rendered w).
Proof.
  assert (0 <= 0.03 < 0.05) as Hr by lra.
  split; [exact Hr|].
  exact (low_draw_is_a_still_frame 1024 768 [Resize 800 600] 0.5 [Frame 0.99]
           0.03 Hr).
Defined.

(** ** Buffers of whole points *)

Lemma whole_buffer_points (positions : list R) n :
  length positions = (3 * n)%nat →
  ∃ points, positions = setFromPoints points ∧ length points = n.
Proof.
  revert positions. induction n as [|n IH]; intros positions Hlen.
  - exists []. destruct positions; [split; reflexivity|discriminate Hlen].
  - destruct positions as [|a [|b [|c positions]]]; cbn [length] in Hlen; try lia.
    destruct (IH positions) as (points & -> & Hpoints); [lia|].
    exists (Vector3.mk a b c :: points). split; [reflexivity|].
    cbn [length]. lia.
Qed.

Lemma wholePoints_length line :
  wholePoints line ↔ ∃ n, length (Line.positions line) = (3 * n)%nat.
Proof.
  unfold wholePoints. split.
  - intros H. exists (length (Line.positions line) / 3)%nat.
    pose proof (Nat.div_mod_eq (length (Line.positions line)) 3). lia.
  - intros [n ->]. rewrite Nat.mul_comm. apply Nat.Div0.mod_mul.
Qed.

(** X9: on any buffer of whole points, not only those of the net, the loop
    of [animate] returns; it keeps the length of the buffer and the x and y
    of every point, and gives every point the depth of its own x and y at
    the time of the tick.  An empty buffer stays empty. *)
Theorem loop_rewrites_every_whole_point (time : R) (positions : list R) (n : nat) :
  length positions = (3 * n)%nat →
  ∃ positions',
    forPositions time 0 positions = Some positions' ∧
    length positions' = length positions ∧
    ∀ p, (p < n)%nat →
      ∃ x y,
        positions !! (3 * p)%nat = Some x ∧
        positions !! (3 * p + 1)%nat = Some y ∧
        positions' !! (3 * p)%nat = Some x ∧
        positions' !! (3 * p + 1)%nat = Some y ∧
        positions' !! (3 * p + 2)%nat = Some (depth x y time).
Proof.
  intros Hlen.
  destruct (whole_buffer_points positions n Hlen) as (points & -> & Hpoints).
  exists (setFromPoints (wave time <$> points)).
  split; [exact (forPositions_points time [] points)|].
  split; [by rewrite !setFromPoints_length, length_fmap|].
  intros p Hp.
  destruct (lookup_lt_is_Some_2 points p) as [q Hq]; [lia|].
  exists (Vector3.x q), (Vector3.y q).
  destruct (setFromPoints_lookup points p) as (-> & -> & _).
  destruct (setFromPoints_lookup (wave time <$> points) p) as (-> & -> & ->).
  rewrite list_lookup_fmap, Hq. repeat split.
Qed.

Lemma loop_rewrites_every_whole_point_two :
  length [1; 2; 0; 3; 4; 0] = (3 * 2)%nat ∧
  ∃ positions',
    forPositions 0 0 [1; 2; 0; 3; 4; 0] = Some positions' ∧
    length positions' = length [1; 2; 0; 3; 4; 0] ∧
    ∀ p, (p < 2)%nat →
      ∃ x y,
        [1; 2; 0; 3; 4; 0] !! (3 * p)%nat = Some x ∧
        [1; 2; 0; 3; 4; 0] !! (3 * p + 1)%nat = Some y ∧
        positions' !! (3 * p)%nat = Some x ∧
        positions' !! (3 * p + 1)%nat = Some y ∧
        positions' !! (3 * p + 2)%nat = Some (depth x y 0).
Proof.
  split; [reflexivity|].
  apply (loop_rewrites_every_whole_point 0 [1; 2; 0; 3; 4; 0] 2). reflexivity.
Defined.

Lemma updateLine_wholePoints time line :
  wholePoints line →
  ∃ line', updateLine time line = Some line' ∧ wholePoints line' ∧
           length (Line.positions line') = length (Line.positions line) ∧
           Line.material line' = Line.material line ∧
           Line.needsUpdate line' = true.
Proof.
  intros [n Hn]%wholePoints_length.
  destruct (whole_buffer_points _ n Hn) as (points & Hpos & _).
  unfold updateLine. rewrite Hpos.
  pose proof (forPositions_points time [] points) as Hloop.
  change (setFromPoints [] ++ setFromPoints points) with (setFromPoints points) in Hloop.
  change (3 * length (@nil Vector3.t))%nat with 0%nat in Hloop.
  change (setFromPoints [] ++ setFromPoints (wave time <$> points))
    with (setFromPoints (wave time <$> points)) in Hloop.
  rewrite Hloop. cbn [mbind option_bind]. eexists. split; [reflexivity|].
  cbn [Line.positions Line.material Line.needsUpdate].
  assert (length (setFromPoints (wave time <$> points)) =
          length (setFromPoints points)) as Hsame
    by (by rewrite !setFromPoints_length, length_fmap).
  split.
  - apply wholePoints_length. exists n. cbn [Line.positions].
    rewrite Hsame, <- Hpos. exact Hn.
  - split; [exact Hsame|]. split; reflexivity.
Qed.

Lemma mapM_updateLine_wholePoints time lines :
  Forall wholePoints lines →
  ∃ lines', mapM (updateLine time) lines = Some lines' ∧
            Forall wholePoints lines' ∧
            Forall2 (λ line line',
                       length (Line.positions line') = length (Line.positions line) ∧
                       Line.material line' = Line.material line) lines lines'.
Proof.
  induction 1 as [|line lines Hline _ (lines' & Hmap & Hwhole & Hsame)].
  - exists []. split; [reflexivity|]. split; constructor.
  - destruct (updateLine_wholePoints time line Hline)
      as (line' & Hupd & Hw' & Hlen & Hmat & _).
    exists (line' :: lines'). split.
    + change (mapM (updateLine time) (line :: lines)) with
        (y ← updateLine time line; k ← mapM (updateLine time) lines; mret (y :: k)).
      rewrite Hupd. cbn [mbind option_bind]. rewrite Hmap. reflexivity.
    + split; constructor; try assumption. split; assumption.
Qed.

(** The lines of a world correspond one to one to those of another, with
    buffers of the same lengths and the same materials. *)
Lemma same_layout_refl lines :
  Forall2 (λ line line' : Line.t,
             length (Line.positions line') = length (Line.positions line) ∧
             Line.material line' = Line.material line) lines lines.
Proof. induction lines; constructor; [split; reflexivity|assumption]. Qed.

Lemma same_layout_trans lines1 lines2 lines3 :
  Forall2 (λ line line' : Line.t,
             length (Line.positions line') = length (Line.positions line) ∧
             Line.material line' = Line.material line) lines1 lines2 →
  Forall2 (λ line line' : Line.t,
             length (Line.positions line') = length (Line.positions line) ∧
             Line.material line' = Line.material line) lines2 lines3 →
  Forall2 (λ line line' : Line.t,
             length (Line.positions line') = length (Line.positions line) ∧
             Line.material line' = Line.material line) lines1 lines3.
Proof.
  intros H12. revert lines3. induction H12 as [|l1 l2 ls1 ls2 [Hl Hm] _ IH];
    intros lines3 H23; inversion H23 as [|? l3 ? ls3 [Hl' Hm'] H23']; subst;
    constructor.
  - split; congruence.
  - apply IH. assumption.
Qed.

(** X10: ticks and resizes never fail on a group of whole-point buffers,
    whatever lines it holds (the group may be empty, or hold lines that
    [createFishingNet] did not build).  Every run returns, and it keeps the
    number of lines, the length of every buffer and every material. *)
Theorem runs_never_fail_on_whole_points (es : list event) (w : World) :
  Forall wholePoints (Group.children (fishingNet w)) →
  ∃ w',
    run es w = Some w' ∧
    Forall wholePoints (Group.children (fishingNet w')) ∧
    Forall2 (λ line line',
               length (Line.positions line') = length (Line.positions line) ∧
               Line.material line' = Line.material line)
            (Group.children (fishingNet w)) (Group.children (fishingNet w')).
Proof.
  revert w. induction es as [|e es IH]; intros w Hw.
  - exists w. split; [reflexivity|]. split; [assumption|apply same_layout_refl].
  - assert (∃ w1, handle e w = Some w1 ∧
              Forall wholePoints (Group.children (fishingNet w1)) ∧
              Forall2 (λ line line',
                 length (Line.positions line') = length (Line.positions line) ∧
                 Line.material line' = Line.material line)
                (Group.children (fishingNet w)) (Group.children (fishingNet w1)))
      as (w1 & Hw1 & Hwhole1 & Hsame1).
    { destruct e as [random | newWidth newHeight]; cbn [handle].
      - unfold animate.
        destruct (mapM_updateLine_wholePoints
                    (time w + Math_floor (random * 20) * 0.001)
                    (Group.children (fishingNet w)) Hw)
          as (lines' & -> & Hwhole & Hsame).
        cbn [mbind option_bind]. eexists. split; [reflexivity|].
        cbn [fishingNet Group.children]. split; assumption.
      - eexists. split; [reflexivity|].
        cbn [onResize resizeWindow fishingNet].
        split; [assumption|apply same_layout_refl]. }
    destruct (IH w1 Hwhole1) as (w' & Hrun & Hwhole' & Hsame').
    exists w'. cbn [run]. rewrite Hw1. cbn [mbind option_bind].
    split; [assumption|]. split; [assumption|].
    exact (same_layout_trans _ _ _ Hsame1 Hsame').
Qed.

Lemma runs_never_fail_on_whole_points_small :
  Forall wholePoints
    (Group.children (fishingNet
       (mkWorld 800 600 0 (PerspectiveCamera 75 (800 / 600) 0.1 1000)
          (Renderer.mk true 800 600)
          (Group.mk [Line.mk [1; 2; 0] false linesMaterial; Line.mk [] false linesMaterial] 0 0)
          [] 0 0 0))) ∧
  ∃ w',
    run [Frame 0.5; Resize 640 480; Frame 0.25]
      (mkWorld 800 600 0 (PerspectiveCamera 75 (800 / 600) 0.1 1000)
          (Renderer.mk true 800 600)
          (Group.mk [Line.mk [1; 2; 0] false linesMaterial; Line.mk [] false linesMaterial] 0 0)
          [] 0 0 0) = Some w' ∧
    Forall wholePoints (Group.children (fishingNet w')) ∧
    Forall2 (λ line line',
               length (Line.positions line') = length (Line.positions line) ∧
               Line.material line' = Line.material line)
            (Group.children (fishingNet
               (mkWorld 800 600 0 (PerspectiveCamera 75 (800 / 600) 0.1 1000)
                  (Renderer.mk true 800 600)
                  (Group.mk [Line.mk [1; 2; 0] false linesMaterial; Line.mk [] false linesMaterial] 0 0)
                  [] 0 0 0)))
            (Group.children (fishingNet w')).
Proof.
  assert (Forall wholePoints
    (Group.children (fishingNet
       (mkWorld 800 600 0 (PerspectiveCamera 75 (800 / 600) 0.1 1000)
          (Renderer.mk true 800 600)
          (Group.mk [Line.mk [1; 2; 0] false linesMaterial; Line.mk [] false linesMaterial] 0 0)
          [] 0 0 0)))) as Hw.
  { repeat constructor. }
  split; [exact Hw|].
  exact (runs_never_fail_on_whole_points [Frame 0.5; Resize 640 480; Frame 0.25] _ Hw).
Defined.

(** ** Resizes among themselves *)

(** X7: of two resizes in a row only the second counts, and a repeated
    resize counts once: in any world, the listener run for (a, b) and then
    for (c, d) leaves the world it leaves when run for (c, d) alone. *)
Theorem last_resize_wins (w : World) (a b c d : R) :
  run [Resize a b; Resize c d] w = run [Resize c d] w ∧
  run [Resize c d; Resize c d] w = run [Resize c d] w.
Proof. split; reflexivity. Qed.

(** ** More on the lattice and the lines as built *)

(** X15: the lattice is a square grid of step [spacing].  For every grid
    size and spacing [createFishingNet] returns a [netGeometry] of exactly
    [gridSize] rows of [gridSize] cells, each with [baseZ = 0]; the next cell
    in a row lies [spacing] further in x at the same y, and the next cell in
    a column lies [spacing] further in y at the same x. *)
Theorem lattice_is_a_square_grid (gridSize : nat) (spacing : R) :
  ∃ netGroup netGeometry,
    createFishingNetWith gridSize spacing = Some (netGroup, netGeometry) ∧
    length netGeometry = gridSize ∧
    (∀ rowCoords, rowCoords ∈ netGeometry →
       length rowCoords = gridSize ∧
       ∀ cell, cell ∈ rowCoords → Cell.baseZ cell = 0) ∧
    (∀ i j, (i < gridSize)%nat → (S j < gridSize)%nat →
       ∃ cell next,
         netGeometry !! i ≫= (.!! j) = Some cell ∧
         netGeometry !! i ≫= (.!! S j) = Some next ∧
         Cell.x next = Cell.x cell + spacing ∧ Cell.y next = Cell.y cell) ∧
    (∀ i j, (S i < gridSize)%nat → (j < gridSize)%nat →
       ∃ cell next,
         netGeometry !! i ≫= (.!! j) = Some cell ∧
         netGeometry !! S i ≫= (.!! j) = Some next ∧
         Cell.y next = Cell.y cell + spacing ∧ Cell.x next = Cell.x cell).
Proof.
  eexists _, _. split; [apply createFishingNetWith_eq|].
  split; [unfold lattice; by rewrite length_fmap, length_seq|].
  split.
  { unfold lattice. intros rowCoords (i & -> & _)%list_elem_of_fmap.
    split; [by rewrite length_fmap, length_seq|].
    intros cell (j & -> & _)%list_elem_of_fmap. reflexivity. }
  split.
  - intros i j Hi Hj.
    exists (cellAt gridSize spacing i j), (cellAt gridSize spacing i (S j)).
    split; [apply lattice_lookup; lia|]. split; [apply lattice_lookup; lia|].
    unfold cellAt. cbn [Cell.x Cell.y]. rewrite S_INR. split; lra.
  - intros i j Hi Hj.
    exists (cellAt gridSize spacing i j), (cellAt gridSize spacing (S i) j).
    split; [apply lattice_lookup; lia|]. split; [apply lattice_lookup; lia|].
    unfold cellAt. cbn [Cell.x Cell.y]. rewrite S_INR. split; lra.
Qed.

(** X14: with the script's spacing of 1, the horizontal lines are built on
    the wave of the animation, at time [gridSize * 0.3] (7.5 for the
    script's 25): point [j] of horizontal line [i] has
    [z = depth x y (gridSize * 0.3)] for its own x and y. *)
Theorem horizontal_lines_start_on_the_wave (gridSize : nat) (spacing : R)
    (i j : nat) :
  spacing = 1 → (i < gridSize)%nat → (j < gridSize)%nat →
  ∃ netGroup netGeometry hline x y,
    createFishingNetWith gridSize spacing = Some (netGroup, netGeometry) ∧
    Group.children netGroup !! i = Some hline ∧
    getX hline j = Some x ∧ getY hline j = Some y ∧
    getZ hline j = Some (depth x y (INR gridSize * 0.3)).
Proof.
  intros -> Hi Hj.
  exists (Group.mk (lineOf <$> netPoints gridSize 1) 0 0), (lattice gridSize 1),
         (lineOf (hpoint gridSize 1 i <$> seq 0 gridSize)),
         (Cell.x (cellAt gridSize 1 i j)), (Cell.y (cellAt gridSize 1 i j)).
  split; [apply createFishingNetWith_eq|]. cbn [Group.children].
  split; [by rewrite list_lookup_fmap, netPoints_hline|].
  destruct (lineOf_get (hpoint gridSize 1 i <$> seq 0 gridSize) j)
    as (-> & -> & ->).
  rewrite !list_lookup_fmap, !lookup_seq_lt by assumption.
  do 2 (split; [reflexivity|]).
  cbn [fmap option_fmap option_map Nat.add]. f_equal.
  unfold hpoint, depth, cellAt. cbn [Vector3.z Cell.x Cell.y].
  do 3 f_equal. lra.
Qed.

Lemma horizontal_lines_start_on_the_wave_default :
  1.0 = 1 ∧ (3 < 25)%nat ∧ (4 < 25)%nat ∧
  ∃ netGroup netGeometry hline x y,
    createFishingNet = Some (netGroup, netGeometry) ∧
    Group.children netGroup !! 3%nat = Some hline ∧
    getX hline 4 = Some x ∧ getY hline 4 = Some y ∧
    getZ hline 4 = Some (depth x y (INR 25 * 0.3)).
Proof.
  assert (1.0 = 1) as H1 by lra.
  split; [exact H1|]. split; [lia|]. split; [lia|].
  apply (horizontal_lines_start_on_the_wave 25 1.0 3 4 H1); lia.
Defined.

(** ** Draws that move the clock *)

Lemma Math_floor_high random : 0.05 <= random < 1 → 1 <= Math_floor (random * 20) <= 19.
Proof.
  intros Hr. unfold Math_floor.
  destruct (base_Int_part (random * 20)) as [Hle Hgt].
  assert (0 < Int_part (random * 20))%Z by (apply lt_IZR; lra).
  assert (Int_part (random * 20) < 20)%Z by (apply lt_IZR; lra).
  assert (1 <= Int_part (random * 20))%Z as H1 by lia.
  assert (Int_part (random * 20) <= 19)%Z as H19 by lia.
  apply IZR_le in H1, H19. lra.
Qed.

(** X16: a draw of 0.05 or more moves the clock.  In every world of a run
    from [boot], [animate] with such a draw returns and advances [time] by
    at least 0.001 and at most 0.019. *)
Theorem high_draw_moves_the_clock (innerWidth innerHeight : R)
    (es : list event) (random : R) :
  0.05 <= random < 1 →
  ∃ w0 w w',
    boot innerWidth innerHeight = Some w0 ∧ run es w0 = Some w ∧
    animate random w = Some w' ∧
    time w + 0.001 <= time w' <= time w + 0.019.
Proof.
  intros Hr.
  destruct (run_from_boot innerWidth innerHeight es) as (w0 & w & Hboot & Hrun & Hs).
  destruct (animate_shape random w Hs) as (w' & Hanim & _ & Ht).
  exists w0, w, w'. do 3 (split; [assumption|]).
  pose proof (Math_floor_high random Hr). lra.
Qed.

Lemma high_draw_moves_the_clock_run :
  0.05 <= 0.05 < 1 ∧
  ∃ w0 w w',
    boot 1024 768 = Some w0 ∧ run [Frame 0.5; Resize 800 600] w0 = Some w ∧
    animate 0.05 w = Some w' ∧
    time w + 0.001 <= time w' <= time w + 0.019.
Proof.
  assert (0.05 <= 0.05 < 1) as Hr by lra.
  split; [exact Hr|].
  exact (high_draw_moves_the_clock 1024 768 [Frame 0.5; Resize 800 600] 0.05 Hr).
Defined.

(** ** Rounding

    What the theorems above leave out.  In binary64 the arguments of the sine
    and of the cosine at (3, 4, 0) are next to 2.1 and 1.4, not equal to
    them, and two points of the lattice on one anti-diagonal can get
    different arguments of the sine. *)

Remark binary64_arguments_3_4_0 :
  PrimFloat.eqb (sineArgument64 3 4 0) 2.0999999999999996 = true ∧
  PrimFloat.eqb (sineArgument64 3 4 0) 2.1 = false ∧
  PrimFloat.eqb (cosineArgument64 3 4) 1.4000000000000001 = true ∧
  PrimFloat.eqb (cosineArgument64 3 4) 1.4 = false.
Proof. repeat split; vm_compute; reflexivity. Qed.

Remark binary64_antidiagonal :
  PrimFloat.eqb (-12.5 + -10.5) (-11.5 + -11.5) = true ∧
  PrimFloat.eqb (sineArgument64 (-12.5) (-10.5) 0)
                (sineArgument64 (-11.5) (-11.5) 0) = false.
Proof. repeat split; vm_compute; reflexivity. Qed.
